(** * openvidu-node-client: the [Session] handle

    A shallow embedding of [openvidu-node-client/src/Session.ts]: the
    constructor, [getSessionId] and [generateToken], together with the part of
    the Node.js platform the two methods rely on (promises, the life cycle of
    an [https] request, [JSON] and [Buffer.byteLength]).

    JavaScript runs the methods on a single-threaded event loop.  The model
    keeps one [World]: the session object, the table of the promises created
    so far, the log of the requests handed to the network, each with the
    callbacks registered on it, and the exceptions nobody caught.  A call of
    a method runs its promise executor to the end; the completion of a
    request is a turn of its own, which runs the callbacks of that request.

    What is taken from the platform and not from the source: a promise is
    settled by the first [resolve] or [reject] only, and an exception that
    leaves the executor rejects it; a request completes once, with a
    response or with an ['error'] event.  Two things are outside the model.
    [https.request] throws, inside the executor, for options it refuses (see
    [accepted]); the model sends the request as for options it accepts, and
    the results that say that a request is written or that a promise is left
    pending are stated for handles that are [accepted].  No encoding is set
    on a response, so each ['data'] event brings a buffer and [body += d]
    appends that buffer decoded on its own; a chunk of the model is the
    string so appended. *)

From Stdlib Require Import ZArith NArith Ascii String DecimalString.
From stdpp Require Import base option list numbers.

Local Open Scope N_scope.
Local Set Warnings "-register-all".

(** ** Strings *)

(** A JavaScript string is a sequence of UTF-16 code units. *)
Definition jsstring : Type := list N.

(** The string with the code units of an ASCII literal. *)
Definition js (s : string) : jsstring := N_of_ascii <$> list_ascii_of_string s.

(** The same for JSON text, written with ['] where the text has a double
    quote. *)
Definition text (s : string) : jsstring :=
  (fun c => if c =? 39 then 34 else c) <$> js s.

Definition is_high_surrogate (c : N) : bool := (0xD800 <=? c) && (c <=? 0xDBFF).
Definition is_low_surrogate (c : N) : bool := (0xDC00 <=? c) && (c <=? 0xDFFF).

(** [Buffer.byteLength(string)] with the default encoding: the number of bytes
    of the UTF-8 encoding of the string.  A surrogate pair encodes one code
    point in four bytes; a surrogate on its own is written as U+FFFD, three
    bytes. *)
Fixpoint byteLength (s : jsstring) : N :=
  match s with
  | [] => 0
  | c :: t =>
      if c <? 0x80 then 1 + byteLength t
      else if c <? 0x800 then 2 + byteLength t
      else if is_high_surrogate c then
        match t with
        | d :: t' => if is_low_surrogate d then 4 + byteLength t' else 3 + byteLength t
        | [] => 3
        end
      else 3 + byteLength t
  end.

(** [s.length]: the number of code units. *)
Definition char_length (s : jsstring) : N := N.of_nat (length s).

(** ** Values *)

(** A JavaScript number.  Every finite double is a decimal
    [mantissa * 10 ^ exponent]; the methods never compute with numbers, they
    only test them for truthiness and hand them to [JSON.stringify]. *)
Inductive JSNumber : Type :=
| NaN
| Infinity (negative : bool)
| Decimal (mantissa exponent : Z).

(** The values that can reach the session: [undefined] and what [JSON.parse]
    returns.  An object lists its own properties in enumeration order. *)
Inductive JSValue : Type :=
| JUndefined
| JNull
| JBoolean (b : bool)
| JNumber (n : JSNumber)
| JString (s : jsstring)
| JArray (elements : list JSValue)
| JObject (properties : list (jsstring * JSValue)).

(** [!!v] *)
Definition ToBoolean (v : JSValue) : bool :=
  match v with
  | JUndefined | JNull => false
  | JBoolean b => b
  | JNumber NaN => false
  | JNumber (Infinity _) => true
  | JNumber (Decimal m _) => negb (m =? 0)%Z
  | JString s => match s with [] => false | _ :: _ => true end
  | JArray _ | JObject _ => true
  end.

Definition jsstring_eqb (a b : jsstring) : bool := bool_decide (a = b).

Fixpoint own_property (k : jsstring) (ps : list (jsstring * JSValue)) : JSValue :=
  match ps with
  | [] => JUndefined
  | (k', v) :: ps' => if jsstring_eqb k k' then v else own_property k ps'
  end.

(** [v.id].  Reading a property of [undefined] or [null] throws a TypeError
    ([None]); an object yields its own property or [undefined]; the other
    values have no property of that name. *)
Definition get_id (v : JSValue) : option JSValue :=
  match v with
  | JUndefined | JNull => None
  | JObject ps => Some (own_property (js "id") ps)
  | _ => Some JUndefined
  end.

(** ** The JSON facility of the platform *)

(** [JSON_stringify ps] is [JSON.stringify({k1: v1, ...})] for the object
    literal with the properties [ps] in source order; [JSON_parse s] is
    [JSON.parse(s)], [None] when it throws a SyntaxError. *)
Class JSONFacility : Type := {
  JSON_stringify : list (jsstring * JSValue) -> jsstring;
  JSON_parse : jsstring -> option JSValue
}.

(** ** Data of the client *)

(** Modelled from the spec: the enumerations [MediaMode], [RecordingMode],
    [RecordingLayout] and [OpenViduRole] are declared in files of the client
    that are not at hand ([./MediaMode], [./RecordingMode],
    [./RecordingLayout], [./OpenViduRole]).  The spec gives the members the
    two methods fall back to as the strings ROUTED, MANUAL, BEST_FIT and
    PUBLISHER; a value of one of these enumerations is the string of its
    member. *)
Definition MediaMode_ROUTED : jsstring := js "ROUTED".
Definition RecordingMode_MANUAL : jsstring := js "MANUAL".
Definition RecordingLayout_BEST_FIT : jsstring := js "BEST_FIT".
Definition OpenViduRole_PUBLISHER : jsstring := js "PUBLISHER".

(** Modelled from the spec: [SessionProperties] and [TokenOptions] are
    declared in [./SessionProperties] and [./TokenOptions], which are not at
    hand; the spec lists their fields, all optional.  [None] is a field that
    is absent ([undefined]). *)
Record SessionProperties : Type := {
  mediaMode : option jsstring;
  recordingMode : option jsstring;
  defaultRecordingLayout : option jsstring;
  defaultCustomLayout : option jsstring
}.

Record TokenOptions : Type := {
  role : option jsstring;
  data : option jsstring
}.

(** The object literal [{}]. *)
Definition empty_properties : SessionProperties :=
  {| mediaMode := None; recordingMode := None;
     defaultRecordingLayout := None; defaultCustomLayout := None |}.

Definition empty_options : TokenOptions := {| role := None; data := None |}.

(** The class [Session]: three constructor parameters kept as private fields
    and the two public fields.  [sessionId] is declared a string, but it holds
    [undefined] until it is assigned and then whatever [parsed.id] was. *)
Record Session : Type := {
  hostname : jsstring;
  port : Z;
  basicAuth : jsstring;
  properties : SessionProperties;
  sessionId : JSValue
}.

Definition API_SESSIONS : jsstring := js "/api/sessions".
Definition API_TOKENS : jsstring := js "/api/tokens".

(** [constructor(hostname, port, basicAuth, properties?)] *)
Definition new_Session (hostname : jsstring) (port : Z) (basicAuth : jsstring)
    (properties : option SessionProperties) : Session :=
  {| hostname := hostname;
     port := port;
     basicAuth := basicAuth;
     properties := match properties with
                   | None => empty_properties
                   | Some given => given
                   end;
     sessionId := JUndefined |}.

(** [this.sessionId = id] *)
Definition set_sessionId (id : JSValue) (this : Session) : Session :=
  {| hostname := hostname this;
     port := port this;
     basicAuth := basicAuth this;
     properties := properties this;
     sessionId := id |}.

(** The value of an optional string field. *)
Definition field (x : option jsstring) : JSValue :=
  match x with
  | Some s => JString s
  | None => JUndefined
  end.

(** [!!x ? x : d] *)
Definition or_default (x : option jsstring) (d : jsstring) : JSValue :=
  if ToBoolean (field x) then field x else JString d.

(** ** Promises *)

Inductive Exception : Type := TypeError | SyntaxError.

(** What a promise of the two methods can be rejected with:
    [new Error(res.statusCode)], the error object of the request's ['error']
    event, or an exception thrown by the executor. *)
Inductive Reason : Type :=
| Error_ (statusCode : Z)
| RequestError (e : jsstring)
| Thrown (e : Exception).

Inductive PromiseState : Type :=
| Pending
| Fulfilled (value : JSValue)
| Rejected (reason : Reason).

(** ** Requests *)

Record Headers : Type := {
  Authorization : jsstring;
  Content_Type : jsstring;
  Content_Length : N
}.

Record RequestOptions : Type := {
  options_hostname : jsstring;
  options_port : Z;
  path : jsstring;
  method : jsstring;
  headers : Headers
}.

(** The callbacks a method registers on its request close over the promise
    they settle. *)
Inductive Callbacks : Type :=
| getSessionId_callbacks (promise : nat)
| generateToken_callbacks (promise : nat).

(** A request handed to the network by [req.write(requestBody); req.end()]. *)
Record ClientRequest : Type := {
  options : RequestOptions;
  written : jsstring;
  callbacks : Callbacks;
  completed : bool
}.

(** The response as the callbacks see it: the status code and, for the
    ['data'] events in order, the string that [body += d] appends for each,
    that is its buffer decoded on its own; then ['end']. *)
Record IncomingMessage : Type := {
  statusCode : Z;
  chunks : list jsstring
}.

(** A request ends with a response or with an ['error'] event. *)
Inductive Completion : Type :=
| Response (res : IncomingMessage)
| Failure (e : jsstring).

(** ** The world *)

Record World : Type := {
  session : Session;
  promises : list PromiseState;
  requests : list ClientRequest;
  uncaught : list Exception
}.

Definition initial (this : Session) : World :=
  {| session := this; promises := []; requests := []; uncaught := [] |}.

Definition with_promises (ps : list PromiseState) (w : World) : World :=
  {| session := session w; promises := ps; requests := requests w; uncaught := uncaught w |}.

Definition with_requests (rs : list ClientRequest) (w : World) : World :=
  {| session := session w; promises := promises w; requests := rs; uncaught := uncaught w |}.

Definition with_session (this : Session) (w : World) : World :=
  {| session := this; promises := promises w; requests := requests w; uncaught := uncaught w |}.

(** An exception that leaves an event callback is caught by nobody. *)
Definition throw (e : Exception) (w : World) : World :=
  {| session := session w; promises := promises w; requests := requests w;
     uncaught := uncaught w ++ [e] |}.

(** [new Promise(...)]: a fresh pending promise; its index names it. *)
Definition new_Promise (w : World) : nat * World :=
  (length (promises w), with_promises (promises w ++ [Pending]) w).

(** Only the first call of [resolve] or [reject] settles a promise. *)
Definition settle (p : nat) (st : PromiseState) (w : World) : World :=
  match promises w !! p with
  | Some Pending => with_promises (<[p := st]> (promises w)) w
  | _ => w
  end.

Definition resolve (p : nat) (value : JSValue) : World -> World :=
  settle p (Fulfilled value).

Definition reject (p : nat) (reason : Reason) : World -> World :=
  settle p (Rejected reason).

(** What [https.request] accepts.  It throws for a port outside 0..65535,
    and for a header value with a code unit other than a tab, 0x20..0x7e and
    0x80..0xff; the values of the headers that come from the handle are the
    credential and, for [Host], the host name. *)
Definition legal_port (port : Z) : bool := (0 <=? port)%Z && (port <=? 65535)%Z.

Definition legal_header_char (c : N) : bool :=
  (c =? 9) || ((0x20 <=? c) && (c <=? 0x7e)) || ((0x80 <=? c) && (c <=? 0xff)).

Definition legal_header_value (value : jsstring) : bool := forallb legal_header_char value.

(** The handle's requests are accepted by [https.request]. *)
Definition accepted (this : Session) : bool :=
  legal_port (port this) &&
  legal_header_value (hostname this) &&
  legal_header_value (basicAuth this).

(** [https.request(options, callback)], [req.on('error', ...)],
    [req.write(requestBody)], [req.end()], for options that [https.request]
    accepts.  For options it refuses the real call throws here, before
    anything is handed to the network. *)
Definition https_request (o : RequestOptions) (cb : Callbacks) (requestBody : jsstring)
    (w : World) : World :=
  with_requests
    (requests w ++ [{| options := o; written := requestBody; callbacks := cb;
                       completed := false |}]) w.

(** [body += d] for every chunk, starting from the empty string. *)
Definition received_body (res : IncomingMessage) : jsstring :=
  foldl (fun body d => body ++ d) [] (chunks res).

(** One turn of the event loop: a call of one of the two methods, or the
    network completing request number [r]. *)
Inductive Action : Type :=
| Call_getSessionId
| Call_generateToken (tokenOptions : option TokenOptions)
| Complete (r : nat) (c : Completion).

(** ** The two methods *)

Section Methods.
Context `{JSON : JSONFacility}.

Definition request_options (this : Session) (api : jsstring) (requestBody : jsstring)
    : RequestOptions :=
  {| options_hostname := hostname this;
     options_port := port this;
     path := api;
     method := js "POST";
     headers := {| Authorization := basicAuth this;
                   Content_Type := js "application/json";
                   Content_Length := byteLength requestBody |} |}.

(** The request body of [getSessionId]. *)
Definition getSessionId_requestBody (this : Session) : jsstring :=
  JSON_stringify
    [ (js "mediaMode", or_default (mediaMode (properties this)) MediaMode_ROUTED);
      (js "recordingMode", or_default (recordingMode (properties this)) RecordingMode_MANUAL);
      (js "defaultRecordingLayout",
         or_default (defaultRecordingLayout (properties this)) RecordingLayout_BEST_FIT);
      (js "defaultCustomLayout", or_default (defaultCustomLayout (properties this)) []) ].

(** [getSessionId()]: the promise executor, which runs to its end within the
    call.  After [resolve(this.sessionId)] the executor goes on. *)
Definition getSessionId (w : World) : World * nat :=
  let '(p, w) := new_Promise w in
  let this := session w in
  let w := if ToBoolean (sessionId this) then resolve p (sessionId this) w else w in
  let requestBody := getSessionId_requestBody this in
  let options := request_options this API_SESSIONS requestBody in
  (https_request options (getSessionId_callbacks p) requestBody w, p).

(** The ['end'] callback of [getSessionId]. *)
Definition getSessionId_end (p : nat) (res : IncomingMessage) (w : World) : World :=
  let body := received_body res in
  if (statusCode res =? 200)%Z then
    match JSON_parse body with
    | None => throw SyntaxError w
    | Some parsed =>
        match get_id parsed with
        | None => throw TypeError w
        | Some id => resolve p id (with_session (set_sessionId id (session w)) w)
        end
    end
  else reject p (Error_ (statusCode res)) w.

(** The request body of [generateToken] for an options object. *)
Definition generateToken_requestBody (this : Session) (tokenOptions : TokenOptions)
    : jsstring :=
  JSON_stringify
    [ (js "session", sessionId this);
      (js "role", or_default (role tokenOptions) OpenViduRole_PUBLISHER);
      (js "data", or_default (data tokenOptions) []) ].

(** [generateToken(tokenOptions?)].  Without an argument [tokenOptions.role]
    reads a property of [undefined]; the exception leaves the executor and
    rejects the promise. *)
Definition generateToken (tokenOptions : option TokenOptions) (w : World) : World * nat :=
  let '(p, w) := new_Promise w in
  let this := session w in
  match tokenOptions with
  | None => (reject p (Thrown TypeError) w, p)
  | Some tokenOptions =>
      let requestBody := generateToken_requestBody this tokenOptions in
      let options := request_options this API_TOKENS requestBody in
      (https_request options (generateToken_callbacks p) requestBody w, p)
  end.

(** The ['end'] callback of [generateToken]. *)
Definition generateToken_end (p : nat) (res : IncomingMessage) (w : World) : World :=
  let body := received_body res in
  if (statusCode res =? 200)%Z then
    match JSON_parse body with
    | None => throw SyntaxError w
    | Some parsed =>
        match get_id parsed with
        | None => throw TypeError w
        | Some id => resolve p id w
        end
    end
  else reject p (Error_ (statusCode res)) w.

(** The callbacks of a request, run on its completion. *)
Definition run_callbacks (cb : Callbacks) (c : Completion) (w : World) : World :=
  match cb, c with
  | getSessionId_callbacks p, Response res => getSessionId_end p res w
  | generateToken_callbacks p, Response res => generateToken_end p res w
  | getSessionId_callbacks p, Failure e => reject p (RequestError e) w
  | generateToken_callbacks p, Failure e => reject p (RequestError e) w
  end.

Definition mark_completed (r : ClientRequest) : ClientRequest :=
  {| options := options r; written := written r; callbacks := callbacks r;
     completed := true |}.

(** The network completes request number [r]; a request completes once. *)
Definition complete (r : nat) (c : Completion) (w : World) : World :=
  match requests w !! r with
  | Some req =>
      if completed req then w
      else run_callbacks (callbacks req) c
             (with_requests (<[r := mark_completed req]> (requests w)) w)
  | None => w
  end.

(** One turn of the event loop. *)
Definition step (w : World) (a : Action) : World :=
  match a with
  | Call_getSessionId => fst (getSessionId w)
  | Call_generateToken tokenOptions => fst (generateToken tokenOptions w)
  | Complete r c => complete r c w
  end.

Definition run (w : World) (actions : list Action) : World := foldl step w actions.

(** The request [getSessionId] hands to the network for promise [p]. *)
Definition getSessionId_request (this : Session) (p : nat) : ClientRequest :=
  {| options := request_options this API_SESSIONS (getSessionId_requestBody this);
     written := getSessionId_requestBody this;
     callbacks := getSessionId_callbacks p;
     completed := false |}.

(** The request [generateToken] hands to the network for promise [p]. *)
Definition generateToken_request (this : Session) (o : TokenOptions) (p : nat)
    : ClientRequest :=
  {| options := request_options this API_TOKENS (generateToken_requestBody this o);
     written := generateToken_requestBody this o;
     callbacks := generateToken_callbacks p;
     completed := false |}.

End Methods.

(** The [Content-Length] header of a request is the byte length of what was
    written to it. *)
Definition exact_length (r : ClientRequest) : Prop :=
  Content_Length (headers (options r)) = byteLength (written r).

(** ** A reference JSON facility

    [JSON.stringify] and [JSON.parse] as ECMAScript defines them, for the
    values of [JSValue].  Two simplifications, neither of which the results
    on the session depend on: a number literal is kept as the exact decimal
    it denotes and not rounded to a double (and a number that is not an
    integer is written back in exponent form), and the properties of a
    parsed object keep the order of the text. *)
Module Reference.

Definition hex_digit (n : N) : N := if n <? 10 then 48 + n else 87 + n.

(** The escape [\uXXXX] of a code unit. *)
Definition unicode_escape (c : N) : jsstring :=
  [92; 117; hex_digit (c / 4096 mod 16); hex_digit (c / 256 mod 16);
   hex_digit (c / 16 mod 16); hex_digit (c mod 16)].

(** The code units of a string between the quotes (QuoteJSONString). *)
Fixpoint quote_units (s : jsstring) : jsstring :=
  match s with
  | [] => []
  | c :: t =>
      if c =? 8 then [92; 98] ++ quote_units t
      else if c =? 9 then [92; 116] ++ quote_units t
      else if c =? 10 then [92; 110] ++ quote_units t
      else if c =? 12 then [92; 102] ++ quote_units t
      else if c =? 13 then [92; 114] ++ quote_units t
      else if c =? 34 then [92; 34] ++ quote_units t
      else if c =? 92 then [92; 92] ++ quote_units t
      else if c <? 32 then unicode_escape c ++ quote_units t
      else if is_high_surrogate c then
        match t with
        | d :: t' =>
            if is_low_surrogate d then c :: d :: quote_units t'
            else unicode_escape c ++ quote_units t
        | [] => unicode_escape c
        end
      else if is_low_surrogate c then unicode_escape c ++ quote_units t
      else c :: quote_units t
  end.

Definition quote (s : jsstring) : jsstring := [34] ++ quote_units s ++ [34].

Fixpoint join (sep : jsstring) (parts : list jsstring) : jsstring :=
  match parts with
  | [] => []
  | [x] => x
  | x :: rest => x ++ sep ++ join sep rest
  end.

Definition decimal_digits (z : Z) : jsstring :=
  js (NilZero.string_of_int (Z.to_int z)).

Definition number_text (n : JSNumber) : jsstring :=
  match n with
  | NaN | Infinity _ => js "null"
  | Decimal m e =>
      if (m =? 0)%Z then js "0"
      else if (0 <=? e)%Z then decimal_digits (m * 10 ^ e)
      else decimal_digits m ++ js "e" ++ decimal_digits e
  end.

(** SerializeJSONProperty: the text of a value, [None] for [undefined]. *)
Fixpoint serialize (v : JSValue) : option jsstring :=
  match v with
  | JUndefined => None
  | JNull => Some (js "null")
  | JBoolean b => Some (if b then js "true" else js "false")
  | JNumber n => Some (number_text n)
  | JString s => Some (quote s)
  | JArray elements =>
      let texts :=
        (fix each (l : list JSValue) : list jsstring :=
           match l with
           | [] => []
           | x :: l' =>
               match serialize x with
               | Some t => t
               | None => js "null"
               end :: each l'
           end) elements in
      Some (js "[" ++ join (js ",") texts ++ js "]")
  | JObject properties =>
      let texts :=
        (fix each (l : list (jsstring * JSValue)) : list jsstring :=
           match l with
           | [] => []
           | (k, x) :: l' =>
               match serialize x with
               | Some t => (quote k ++ js ":" ++ t) :: each l'
               | None => each l'
               end
           end) properties in
      Some (js "{" ++ join (js ",") texts ++ js "}")
  end.

(** [JSON.stringify] of an object literal: always a string. *)
Definition stringify (properties : list (jsstring * JSValue)) : jsstring :=
  match serialize (JObject properties) with
  | Some text => text
  | None => []
  end.

Definition is_ws (c : N) : bool := (c =? 32) || (c =? 9) || (c =? 10) || (c =? 13).

Fixpoint skip_ws (s : jsstring) : jsstring :=
  match s with
  | c :: t => if is_ws c then skip_ws t else s
  | [] => []
  end.

Definition is_digit (c : N) : bool := (48 <=? c) && (c <=? 57).

Definition hex_value (c : N) : option N :=
  if is_digit c then Some (c - 48)
  else if (97 <=? c) && (c <=? 102) then Some (c - 87)
  else if (65 <=? c) && (c <=? 70) then Some (c - 55)
  else None.

(** The rest of a string literal after its opening quote; [acc] holds the
    code units read so far, last first. *)
Fixpoint string_rest (s acc : jsstring) : option (jsstring * jsstring) :=
  match s with
  | [] => None
  | c :: t =>
      if c =? 34 then Some (rev acc, t)
      else if c <? 32 then None
      else if c =? 92 then
        match t with
        | [] => None
        | e :: t1 =>
            if e =? 34 then string_rest t1 (34 :: acc)
            else if e =? 92 then string_rest t1 (92 :: acc)
            else if e =? 47 then string_rest t1 (47 :: acc)
            else if e =? 98 then string_rest t1 (8 :: acc)
            else if e =? 102 then string_rest t1 (12 :: acc)
            else if e =? 110 then string_rest t1 (10 :: acc)
            else if e =? 114 then string_rest t1 (13 :: acc)
            else if e =? 116 then string_rest t1 (9 :: acc)
            else if e =? 117 then
              match t1 with
              | h1 :: h2 :: h3 :: h4 :: t2 =>
                  match hex_value h1, hex_value h2, hex_value h3, hex_value h4 with
                  | Some a, Some b, Some c', Some d =>
                      string_rest t2 ((a * 4096 + b * 256 + c' * 16 + d) :: acc)
                  | _, _, _, _ => None
                  end
              | _ => None
              end
            else None
        end
      else string_rest t (c :: acc)
  end.

(** The longest run of digits at the head of [s], and what follows it. *)
Fixpoint digits (s : jsstring) : jsstring * jsstring :=
  match s with
  | c :: t => if is_digit c then let '(ds, r) := digits t in (c :: ds, r) else ([], s)
  | [] => ([], [])
  end.

Definition digits_value (ds : jsstring) : Z :=
  foldl (fun acc d => (10 * acc + Z.of_N (d - 48))%Z) 0%Z ds.

(** The fraction part of a number, if there is one: its digits. *)
Definition fraction (s : jsstring) : option (jsstring * jsstring) :=
  match s with
  | 46 :: t => match digits t with
               | ([], _) => None
               | (ds, r) => Some (ds, r)
               end
  | _ => Some ([], s)
  end.

(** The exponent part of a number, if there is one: its value. *)
Definition exponent_part (s : jsstring) : option (Z * jsstring) :=
  let signed (negative : bool) (t : jsstring) :=
    match digits t with
    | ([], _) => None
    | (ds, r) => Some ((if negative then - digits_value ds else digits_value ds)%Z, r)
    end in
  match s with
  | c :: t =>
      if (c =? 101) || (c =? 69) then
        match t with
        | 43 :: t' => signed false t'
        | 45 :: t' => signed true t'
        | _ => signed false t
        end
      else Some (0%Z, s)
  | [] => Some (0%Z, s)
  end.

Definition number (s : jsstring) : option (JSNumber * jsstring) :=
  let '(negative, s1) := match s with
                         | 45 :: t => (true, t)
                         | _ => (false, s)
                         end in
  match digits s1 with
  | ([], _) => None
  | (c :: ds, s2) =>
      if (c =? 48) && negb (bool_decide (ds = [])) then None
      else
        match fraction s2 with
        | None => None
        | Some (fs, s3) =>
            match exponent_part s3 with
            | None => None
            | Some (e, s4) =>
                let m := digits_value ((c :: ds) ++ fs) in
                Some (Decimal (if negative then - m else m)
                              (e - Z.of_nat (length fs)), s4)
            end
        end
  end.

(** A later property of the same name replaces the value of the earlier. *)
Fixpoint define (k : jsstring) (v : JSValue) (ps : list (jsstring * JSValue))
    : list (jsstring * JSValue) :=
  match ps with
  | [] => [(k, v)]
  | (k', v') :: ps' => if jsstring_eqb k k' then (k', v) :: ps' else (k', v') :: define k v ps'
  end.

Definition literal (word : jsstring) (v : JSValue) (s : jsstring)
    : option (JSValue * jsstring) :=
  if bool_decide (take (length word) s = word) then Some (v, drop (length word) s)
  else None.

(** A value at the head of [s], after white space, and what follows it. *)
Fixpoint value (fuel : nat) (s : jsstring) : option (JSValue * jsstring) :=
  match fuel with
  | O => None
  | S fuel =>
      match skip_ws s with
      | [] => None
      | c :: t =>
          if c =? 123 then
            match skip_ws t with
            | 125 :: r => Some (JObject [], r)
            | _ => members fuel t []
            end
          else if c =? 91 then
            match skip_ws t with
            | 93 :: r => Some (JArray [], r)
            | _ => elements fuel t []
            end
          else if c =? 34 then
            match string_rest t [] with
            | Some (str, r) => Some (JString str, r)
            | None => None
            end
          else if c =? 116 then literal (js "true") (JBoolean true) (c :: t)
          else if c =? 102 then literal (js "false") (JBoolean false) (c :: t)
          else if c =? 110 then literal (js "null") JNull (c :: t)
          else
            match number (c :: t) with
            | Some (n, r) => Some (JNumber n, r)
            | None => None
            end
      end
  end
with members (fuel : nat) (s : jsstring) (acc : list (jsstring * JSValue))
    : option (JSValue * jsstring) :=
  match fuel with
  | O => None
  | S fuel =>
      match skip_ws s with
      | 34 :: t =>
          match string_rest t [] with
          | Some (k, r) =>
              match skip_ws r with
              | 58 :: r1 =>
                  match value fuel r1 with
                  | Some (v, r2) =>
                      match skip_ws r2 with
                      | 44 :: r3 => members fuel r3 (define k v acc)
                      | 125 :: r3 => Some (JObject (define k v acc), r3)
                      | _ => None
                      end
                  | None => None
                  end
              | _ => None
              end
          | None => None
          end
      | _ => None
      end
  end
with elements (fuel : nat) (s : jsstring) (acc : list JSValue)
    : option (JSValue * jsstring) :=
  match fuel with
  | O => None
  | S fuel =>
      match value fuel s with
      | Some (v, r) =>
          match skip_ws r with
          | 44 :: r1 => elements fuel r1 (acc ++ [v])
          | 93 :: r1 => Some (JArray (acc ++ [v]), r1)
          | _ => None
          end
      | None => None
      end
  end.

(** [JSON.parse]: one value with white space around it and nothing else.
    The fuel bounds the depth of the calls; two calls in a row read at least
    one code unit between them, so twice the length of the text is enough. *)
Definition parse (s : jsstring) : option JSValue :=
  match value (2 * length s + 2) s with
  | Some (v, r) => match skip_ws r with
                   | [] => Some v
                   | _ :: _ => None
                   end
  | None => None
  end.

#[export] Instance json : JSONFacility :=
  {| JSON_stringify := stringify; JSON_parse := parse |}.

End Reference.

(** ** Sessions and responses used in the examples *)

Definition fresh : Session :=
  new_Session (js "localhost") 4443 (js "Basic T1BFTlZJRFVBUFA6TVlfU0VDUkVU") None.

(** A handle that already holds the identifier abc. *)
Definition cached : Session := set_sessionId (JString (js "abc")) fresh.

(** A handle whose custom layout is the one letter U+00E9. *)
Definition accented : Session :=
  new_Session (js "localhost") 4443 (js "Basic T1BFTlZJRFVBUFA6TVlfU0VDUkVU")
    (Some {| mediaMode := None; recordingMode := None;
             defaultRecordingLayout := None; defaultCustomLayout := Some [233] |}).

(** A 200 response with the given body, in one chunk. *)
Definition ok (body : jsstring) : Completion :=
  Response {| statusCode := 200; chunks := [body] |}.

(** A 400 response without a body. *)
Definition bad_request : IncomingMessage := {| statusCode := 400; chunks := [] |}.

(** ** Descriptions used by the results on runs *)

(** The promise that the callbacks of a request settle. *)
Definition callbacks_promise (cb : Callbacks) : nat :=
  match cb with
  | getSessionId_callbacks p | generateToken_callbacks p => p
  end.

(** The resource the method that registered the callbacks posts to. *)
Definition callbacks_path (cb : Callbacks) : jsstring :=
  match cb with
  | getSessionId_callbacks _ => API_SESSIONS
  | generateToken_callbacks _ => API_TOKENS
  end.

(** A turn that is a call of a method. *)
Definition calling (a : Action) : bool :=
  match a with
  | Call_getSessionId | Call_generateToken _ => true
  | Complete _ _ => false
  end.

(** A call that gets as far as [https.request]. *)
Definition requesting (a : Action) : bool :=
  match a with
  | Call_getSessionId | Call_generateToken (Some _) => true
  | Call_generateToken None | Complete _ _ => false
  end.

(** The request carries the connection parameters of the handle, and goes to
    the resource of the method that made it. *)
Definition addressed_as (this : Session) (r : ClientRequest) : Prop :=
  options_hostname (options r) = hostname this /\
  options_port (options r) = port this /\
  Authorization (headers (options r)) = basicAuth this /\
  Content_Type (headers (options r)) = js "application/json" /\
  method (options r) = js "POST" /\
  path (options r) = callbacks_path (callbacks r).

(** The two sessions differ in [sessionId] at most. *)
Definition same_handle (a b : Session) : Prop :=
  hostname a = hostname b /\ port a = port b /\
  basicAuth a = basicAuth b /\ properties a = properties b.

(** The promises of the requests in the log exist and are pairwise
    different. *)
Definition one_promise_each (w : World) : Prop :=
  Forall (fun r => (callbacks_promise (callbacks r) < length (promises w))%nat)
         (requests w) /\
  NoDup ((fun r => callbacks_promise (callbacks r)) <$> requests w).

Section Outcomes.
Context `{JSON : JSONFacility}.

(** The 200 branch of the ['end'] callbacks throws on this response: the body
    is no JSON text, or it is the text of [null]. *)
Definition throws (res : IncomingMessage) : bool :=
  (statusCode res =? 200)%Z &&
  match JSON_parse (received_body res) with
  | None => true
  | Some parsed => match get_id parsed with
                   | None => true
                   | Some _ => false
                   end
  end.

End Outcomes.

(** * Results *)

(** ** Byte length and character count *)

Lemma byteLength_ge_upto (n : nat) (s : jsstring) :
  (length s <= n)%nat -> char_length s <= byteLength s.
Proof.
  unfold char_length. revert s.
  induction n as [|n IH]; intros [|c t] Hlen; simpl in *; try lia.
  pose proof (IH t ltac:(lia)) as Ht.
  destruct (c <? 0x80); [lia|].
  destruct (c <? 0x800); [lia|].
  destruct (is_high_surrogate c); [|lia].
  destruct t as [|d t']; [simpl; lia|].
  destruct (is_low_surrogate d); [|lia].
  pose proof (IH t' ltac:(simpl in Hlen; lia)) as Ht'.
  simpl length in *. lia.
Qed.

(** A string never has more code units than bytes. *)
Lemma byteLength_ge (s : jsstring) : char_length s <= byteLength s.
Proof. exact (byteLength_ge_upto (length s) s (le_n _)). Qed.

(** The two agree on ASCII. *)
Lemma byteLength_ascii (s : jsstring) :
  Forall (fun c => c < 0x80) s -> byteLength s = char_length s.
Proof.
  unfold char_length.
  induction 1 as [|c t Hc _ IH]; [reflexivity|].
  simpl. apply N.ltb_lt in Hc. rewrite Hc, IH. lia.
Qed.

(** One code unit outside ASCII is enough for them to differ. *)
Lemma byteLength_gt (s : jsstring) :
  Exists (fun c => 0x80 <= c) s -> char_length s < byteLength s.
Proof.
  induction 1 as [c t Hc | c t _ IH];
    pose proof (byteLength_ge t) as Ht; unfold char_length in *; simpl.
  - apply N.ltb_ge in Hc. rewrite Hc.
    destruct (c <? 0x800); [lia|].
    destruct (is_high_surrogate c); [|lia].
    destruct t as [|d t']; [simpl; lia|].
    destruct (is_low_surrogate d); [|lia].
    pose proof (byteLength_ge t') as Ht'. unfold char_length in Ht'.
    simpl length in *. lia.
  - destruct (c <? 0x80); [lia|].
    destruct (c <? 0x800); [lia|].
    destruct (is_high_surrogate c); [|lia].
    destruct t as [|d t']; [simpl; lia|].
    destruct (is_low_surrogate d); [|lia].
    pose proof (byteLength_ge t') as Ht'. unfold char_length in Ht'.
    simpl length in *. lia.
Qed.

(** ** The promise table *)

Lemma session_settle p st w : session (settle p st w) = session w.
Proof. unfold settle. destruct (promises w !! p) as [[| |]|]; reflexivity. Qed.

Lemma requests_settle p st w : requests (settle p st w) = requests w.
Proof. unfold settle. destruct (promises w !! p) as [[| |]|]; reflexivity. Qed.

Lemma settle_pending p st w :
  promises w !! p = Some Pending -> promises (settle p st w) !! p = Some st.
Proof.
  intros Hp. unfold settle. rewrite Hp. simpl.
  apply list_lookup_insert_eq. by eapply lookup_lt_Some.
Qed.

(** [resolve] and [reject] do nothing to a promise that is settled. *)
Lemma settle_settled p st w :
  promises w !! p <> Some Pending -> settle p st w = w.
Proof.
  intros Hp. unfold settle.
  destruct (promises w !! p) as [[| |]|]; congruence.
Qed.

Lemma settle_other p q st w :
  p <> q -> promises (settle p st w) !! q = promises w !! q.
Proof.
  intros Hne. unfold settle.
  destruct (promises w !! p) as [[| |]|]; try reflexivity.
  simpl. by apply list_lookup_insert_ne.
Qed.

Lemma settle_keeps p q st w :
  promises w !! q <> Some Pending -> promises (settle p st w) !! q = promises w !! q.
Proof.
  intros Hq. destruct (decide (p = q)) as [->|Hne].
  - by rewrite settle_settled.
  - by apply settle_other.
Qed.

(** Fulfilling one promise rejects none. *)
Lemma settle_fulfilled_rejected p v w q reason :
  promises (settle p (Fulfilled v) w) !! q = Some (Rejected reason) ->
  promises w !! q = Some (Rejected reason).
Proof.
  unfold settle. destruct (promises w !! p) as [[| |]|] eqn:Hp; try done.
  simpl. destruct (decide (p = q)) as [->|Hne].
  - rewrite list_lookup_insert_eq by (by eapply lookup_lt_Some). congruence.
  - by rewrite list_lookup_insert_ne.
Qed.

Lemma lookup_fresh {A} (l : list A) (x : A) : (l ++ [x]) !! length l = Some x.
Proof. rewrite lookup_app_r by lia. by rewrite Nat.sub_diag. Qed.

Section Facts.
Context `{JSON : JSONFacility}.

(** ** What a call does *)

(** [getSessionId] hands a request to the network whatever the session
    holds. *)
Lemma getSessionId_requests w :
  requests (fst (getSessionId w)) =
  requests w ++ [getSessionId_request (session w) (length (promises w))].
Proof.
  unfold getSessionId, resolve. simpl.
  destruct (ToBoolean (sessionId (session w))); simpl;
    rewrite ?requests_settle; reflexivity.
Qed.

Lemma getSessionId_session w : session (fst (getSessionId w)) = session w.
Proof.
  unfold getSessionId, resolve. simpl.
  destruct (ToBoolean (sessionId (session w))); simpl;
    rewrite ?session_settle; reflexivity.
Qed.

Lemma getSessionId_promises w :
  promises (fst (getSessionId w)) =
  promises w ++ [if ToBoolean (sessionId (session w))
                 then Fulfilled (sessionId (session w)) else Pending].
Proof.
  unfold getSessionId. simpl.
  destruct (ToBoolean (sessionId (session w))); simpl; [|reflexivity].
  unfold resolve, settle. simpl. rewrite lookup_fresh. simpl.
  rewrite insert_app_r_alt by lia. by rewrite Nat.sub_diag.
Qed.

(** On a session without an identifier the call leaves its promise pending. *)
Lemma getSessionId_unset w :
  ToBoolean (sessionId (session w)) = false ->
  fst (getSessionId w) =
  {| session := session w;
     promises := promises w ++ [Pending];
     requests := requests w ++ [getSessionId_request (session w) (length (promises w))];
     uncaught := uncaught w |}.
Proof. intros Hf. unfold getSessionId. simpl. by rewrite Hf. Qed.

Lemma generateToken_requests o w :
  requests (fst (generateToken (Some o) w)) =
  requests w ++ [generateToken_request (session w) o (length (promises w))].
Proof. reflexivity. Qed.

Lemma generateToken_promises o w :
  promises (fst (generateToken o w)) =
  promises w ++ [match o with
                 | None => Rejected (Thrown TypeError)
                 | Some _ => Pending
                 end].
Proof.
  destruct o as [o|]; [reflexivity|].
  unfold generateToken, reject, settle. simpl. rewrite lookup_fresh. simpl.
  rewrite insert_app_r_alt by lia. by rewrite Nat.sub_diag.
Qed.

Lemma generateToken_session o w : session (fst (generateToken o w)) = session w.
Proof.
  destruct o as [o|]; [reflexivity|].
  unfold generateToken, reject. simpl. by rewrite session_settle.
Qed.

(** ** What a completion does *)

(** A status other than 200 rejects with the status; [JSON_parse] is not
    applied. *)
Lemma getSessionId_end_not_200 p res w :
  statusCode res <> 200%Z ->
  getSessionId_end p res w = reject p (Error_ (statusCode res)) w.
Proof.
  intros Hs. unfold getSessionId_end.
  by destruct (Z.eqb_spec (statusCode res) 200).
Qed.

Lemma generateToken_end_not_200 p res w :
  statusCode res <> 200%Z ->
  generateToken_end p res w = reject p (Error_ (statusCode res)) w.
Proof.
  intros Hs. unfold generateToken_end.
  by destruct (Z.eqb_spec (statusCode res) 200).
Qed.

Lemma getSessionId_end_200 p res w parsed id :
  statusCode res = 200%Z ->
  JSON_parse (received_body res) = Some parsed ->
  get_id parsed = Some id ->
  getSessionId_end p res w =
  resolve p id (with_session (set_sessionId id (session w)) w).
Proof.
  intros Hs Hparse Hid. unfold getSessionId_end.
  by rewrite Hs, Hparse, Hid.
Qed.

Lemma generateToken_end_200 p res w parsed id :
  statusCode res = 200%Z ->
  JSON_parse (received_body res) = Some parsed ->
  get_id parsed = Some id ->
  generateToken_end p res w = resolve p id w.
Proof.
  intros Hs Hparse Hid. unfold generateToken_end.
  by rewrite Hs, Hparse, Hid.
Qed.

(** No branch of the callbacks of [generateToken] writes the session. *)
Lemma generateToken_end_session p res w :
  session (generateToken_end p res w) = session w.
Proof.
  unfold generateToken_end, resolve, reject.
  destruct (statusCode res =? 200)%Z; [|by rewrite session_settle].
  destruct (JSON_parse _) as [parsed|]; [|reflexivity].
  destruct (get_id parsed); [by rewrite session_settle | reflexivity].
Qed.

Lemma requests_run_callbacks cb c w : requests (run_callbacks cb c w) = requests w.
Proof.
  destruct cb as [p|p], c as [res|e]; simpl;
    unfold getSessionId_end, generateToken_end, resolve, reject, throw;
    repeat match goal with
    | |- context [if ?b then _ else _] => destruct b
    | |- context [match ?o with Some _ => _ | None => _ end] => destruct o
    end; simpl; rewrite ?requests_settle; reflexivity.
Qed.

Lemma complete_in_flight r c w req :
  requests w !! r = Some req ->
  completed req = false ->
  complete r c w =
  run_callbacks (callbacks req) c
    (with_requests (<[r := mark_completed req]> (requests w)) w).
Proof. intros Hr Hc. unfold complete. by rewrite Hr, Hc. Qed.

Lemma complete_not_200 r p res w req :
  requests w !! r = Some req ->
  completed req = false ->
  callbacks req = getSessionId_callbacks p \/ callbacks req = generateToken_callbacks p ->
  statusCode res <> 200%Z ->
  complete r (Response res) w =
  reject p (Error_ (statusCode res))
    (with_requests (<[r := mark_completed req]> (requests w)) w).
Proof.
  intros Hr Hc Hcb Hs. rewrite (complete_in_flight _ _ _ _ Hr Hc).
  destruct Hcb as [-> | ->]; simpl.
  - by apply getSessionId_end_not_200.
  - by apply generateToken_end_not_200.
Qed.

Lemma complete_getSessionId_200 r p res w req parsed id :
  requests w !! r = Some req ->
  completed req = false ->
  callbacks req = getSessionId_callbacks p ->
  statusCode res = 200%Z ->
  JSON_parse (received_body res) = Some parsed ->
  get_id parsed = Some id ->
  complete r (Response res) w =
  resolve p id
    (with_session (set_sessionId id (session w))
       (with_requests (<[r := mark_completed req]> (requests w)) w)).
Proof.
  intros Hr Hc Hcb Hs Hparse Hid.
  rewrite (complete_in_flight _ _ _ _ Hr Hc), Hcb. simpl.
  by rewrite (getSessionId_end_200 _ _ _ _ _ Hs Hparse Hid).
Qed.

(** Only a 200 response to a request of [getSessionId] writes the session. *)
Lemma complete_session r c w :
  session (complete r c w) <> session w ->
  exists req res p,
    requests w !! r = Some req /\ completed req = false /\
    callbacks req = getSessionId_callbacks p /\
    c = Response res /\ statusCode res = 200%Z.
Proof.
  unfold complete.
  destruct (requests w !! r) as [req|] eqn:Hr; [|congruence].
  destruct (completed req) eqn:Hc; [congruence|].
  destruct (callbacks req) as [p|p] eqn:Hcb, c as [res|e]; simpl.
  - intros Hne. exists req, res, p. repeat split; try done.
    destruct (Z.eqb_spec (statusCode res) 200) as [|Hs]; [done|].
    rewrite getSessionId_end_not_200 in Hne by done.
    unfold reject in Hne. by rewrite session_settle in Hne.
  - unfold reject. by rewrite session_settle.
  - by rewrite generateToken_end_session.
  - unfold reject. by rewrite session_settle.
Qed.

(** ** A first call on a session without an identifier *)

(** The status of a response other than 200 reaches the caller. *)
Lemma getSessionId_unset_rejected w res :
  ToBoolean (sessionId (session w)) = false ->
  statusCode res <> 200%Z ->
  promises (complete (length (requests w)) (Response res) (fst (getSessionId w)))
    !! length (promises w) = Some (Rejected (Error_ (statusCode res))).
Proof.
  intros Hf Hs. rewrite (getSessionId_unset _ Hf).
  rewrite (complete_not_200 _ (length (promises w)) res _
             (getSessionId_request (session w) (length (promises w)))).
  - unfold reject. apply settle_pending. simpl. apply lookup_fresh.
  - simpl. apply lookup_fresh.
  - reflexivity.
  - by left.
  - exact Hs.
Qed.

(** The identifier of a 200 response is stored and reaches the caller. *)
Lemma getSessionId_unset_provisions w res parsed id :
  ToBoolean (sessionId (session w)) = false ->
  statusCode res = 200%Z ->
  JSON_parse (received_body res) = Some parsed ->
  get_id parsed = Some id ->
  let w' := complete (length (requests w)) (Response res) (fst (getSessionId w)) in
  sessionId (session w') = id /\
  promises w' !! length (promises w) = Some (Fulfilled id).
Proof.
  intros Hf Hs Hparse Hid. cbv zeta. rewrite (getSessionId_unset _ Hf).
  rewrite (complete_getSessionId_200 _ (length (promises w)) res _
             (getSessionId_request (session w) (length (promises w))) parsed id);
    try done; [|simpl; apply lookup_fresh].
  unfold resolve. rewrite session_settle. split; [reflexivity|].
  apply settle_pending. simpl. apply lookup_fresh.
Qed.

(** A completion leaves the promises that are settled as they are. *)
Lemma complete_keeps r c w q :
  promises w !! q <> Some Pending ->
  promises (complete r c w) !! q = promises w !! q.
Proof.
  intros Hq. unfold complete.
  destruct (requests w !! r) as [req|]; [|reflexivity].
  destruct (completed req); [reflexivity|].
  set (w1 := with_requests _ w).
  assert (H1 : promises w1 !! q <> Some Pending) by exact Hq.
  change (promises w !! q) with (promises w1 !! q).
  clearbody w1. clear Hq.
  destruct (callbacks req) as [p|p], c as [res|e]; simpl;
    unfold getSessionId_end, generateToken_end, resolve, reject, throw;
    repeat match goal with
    | |- context [if ?b then _ else _] => destruct b
    | |- context [match ?o with Some _ => _ | None => _ end] => destruct o
    end; simpl; try reflexivity; by rewrite settle_keeps.
Qed.

(** ** A call on a session that holds an identifier *)

(** Whatever the network answers to the request of such a call, the caller
    has been answered the identifier the session held. *)
Lemma getSessionId_cached_settled w c :
  ToBoolean (sessionId (session w)) = true ->
  promises (complete (length (requests w)) c (fst (getSessionId w)))
    !! length (promises w) = Some (Fulfilled (sessionId (session w))).
Proof.
  intros Ht.
  assert (Hp : promises (fst (getSessionId w)) !! length (promises w) =
               Some (Fulfilled (sessionId (session w)))).
  { rewrite getSessionId_promises, Ht. apply lookup_fresh. }
  rewrite complete_keeps; [exact Hp | congruence].
Qed.

(** The identifier of a 200 response to that request replaces the one the
    session held. *)
Lemma getSessionId_cached_overwritten w res parsed id :
  ToBoolean (sessionId (session w)) = true ->
  statusCode res = 200%Z ->
  JSON_parse (received_body res) = Some parsed ->
  get_id parsed = Some id ->
  sessionId (session (complete (length (requests w)) (Response res)
                        (fst (getSessionId w)))) = id.
Proof.
  intros Ht Hs Hparse Hid.
  rewrite (complete_getSessionId_200 _ (length (promises w)) res _
             (getSessionId_request (session w) (length (promises w))) parsed id);
    try done.
  - unfold resolve. by rewrite session_settle.
  - rewrite getSessionId_requests. apply lookup_fresh.
Qed.

(** ** The request log *)

Lemma exact_length_step w a :
  Forall exact_length (requests w) -> Forall exact_length (requests (step w a)).
Proof.
  intros Hw. destruct a as [|[o|]|r c]; cbn [step].
  - rewrite getSessionId_requests. apply Forall_app. split; [done|].
    by apply Forall_singleton.
  - rewrite generateToken_requests. apply Forall_app. split; [done|].
    by apply Forall_singleton.
  - unfold generateToken, reject. simpl. by rewrite requests_settle.
  - unfold complete. destruct (requests w !! r) as [req|] eqn:Hr; [|done].
    destruct (completed req); [done|].
    rewrite requests_run_callbacks. simpl.
    apply Forall_insert; [done|].
    eapply (Forall_lookup_1 _ _ _ _ Hw Hr).
Qed.

Lemma exact_length_run actions w :
  Forall exact_length (requests w) -> Forall exact_length (requests (run w actions)).
Proof.
  revert w. induction actions as [|a actions IH]; intros w Hw; [done|].
  apply IH. by apply exact_length_step.
Qed.

End Facts.

(** * The claims

    The results that hold for every JSON facility are stated for an arbitrary
    one; the runs on concrete sessions use the reference facility. *)

Section Claims.
#[local] Existing Instance Reference.json.

(** C1.  The claim: on a handle whose [sessionId] is set, [getSessionId]
    completes with the cached identifier and issues no network call, so that
    two calls in sequence issue one request in total.  The code resolves with
    the cached identifier but does not return after [resolve]: the call on
    the handle that holds abc still posts to /api/sessions, and of two calls
    in sequence, the first answered with the identifier abc, both resolve to
    abc and each posts a request, two in total. *)
Theorem getSessionId_cached_requests_again :
  let w1 := run (initial cached) [Call_getSessionId] in
  let w2 := run (initial fresh)
              [Call_getSessionId; Complete 0 (ok (text "{'id':'abc'}"));
               Call_getSessionId] in
  (promises w1 = [Fulfilled (JString (js "abc"))] /\
   (fun r => path (options r)) <$> requests w1 = [API_SESSIONS]) /\
  (promises w2 = [Fulfilled (JString (js "abc")); Fulfilled (JString (js "abc"))] /\
   (fun r => path (options r)) <$> requests w2 = [API_SESSIONS; API_SESSIONS]).
Proof. vm_compute. done. Qed.

(** C2.  [generateToken] called without an argument does not fall back to
    the defaults: reading a property of the absent options throws a
    TypeError, the promise is rejected with that exception, which is not an
    error that carries a status, and no request is made. *)
Theorem generateToken_without_options `{JSON : JSONFacility} (w : World) :
  let '(w', p) := generateToken None w in
  promises w' !! p = Some (Rejected (Thrown TypeError)) /\
  (forall statusCode, Rejected (Thrown TypeError) <> Rejected (Error_ statusCode)) /\
  requests w' = requests w /\
  session w' = session w.
Proof.
  pose proof (generateToken_promises None w) as Hp.
  pose proof (generateToken_session None w) as Hs.
  unfold generateToken in *. simpl in *.
  split; [|split; [done|split]].
  - rewrite Hp. apply lookup_fresh.
  - unfold reject. by rewrite requests_settle.
  - done.
Qed.

(** C3.  The claim: every response with a status other than 200 makes the
    operation fail with that status, the body left unparsed.  The callbacks
    do call [reject] with the status and do not parse, but on a handle that
    holds an identifier [getSessionId] has resolved its promise before the
    request goes out: the 400 answer to that request is dropped and the
    caller sees success. *)
Theorem getSessionId_cached_drops_status :
  let w := run (initial cached) [Call_getSessionId; Complete 0 (Response bad_request)] in
  promises w = [Fulfilled (JString (js "abc"))] /\
  promises w <> [Rejected (Error_ 400)].
Proof. vm_compute. done. Qed.

(** C4.  The claim: a 200 response to the request of [getSessionId] is
    parsed, its [id] stored in [sessionId], and the call completes with that
    same identifier.  On a handle that holds abc the request still goes out;
    its answer with the identifier xyz is stored, while the caller was
    answered abc. *)
Theorem getSessionId_cached_overwrites :
  let w := run (initial cached) [Call_getSessionId; Complete 0 (ok (text "{'id':'xyz'}"))] in
  sessionId (session w) = JString (js "xyz") /\
  promises w = [Fulfilled (JString (js "abc"))].
Proof. vm_compute. done. Qed.

(** C5.  A handle constructed without properties, or with the empty object,
    serializes the body with the four defaults; in general a field that is
    unset (or the empty string) is replaced by its default and a field that
    is set is serialized as it is.  That holds for every handle.  On a
    handle whose requests [https.request] accepts, the call writes that body
    to the request it makes. *)
Theorem getSessionId_default_body `{JSON : JSONFacility}
    (hostname : jsstring) (port : Z) (basicAuth : jsstring) :
  let defaults :=
    JSON_stringify
      [ (js "mediaMode", JString (js "ROUTED"));
        (js "recordingMode", JString (js "MANUAL"));
        (js "defaultRecordingLayout", JString (js "BEST_FIT"));
        (js "defaultCustomLayout", JString []) ] in
  let unset_or (x : option jsstring) (d : jsstring) :=
    match x with
    | None | Some [] => d
    | Some s => s
    end in
  let omitted := new_Session hostname port basicAuth None in
  let empty := new_Session hostname port basicAuth (Some empty_properties) in
  (getSessionId_requestBody omitted = defaults /\
   getSessionId_requestBody empty = defaults /\
   forall this : Session,
     getSessionId_requestBody this =
     JSON_stringify
       [ (js "mediaMode",
            JString (unset_or (mediaMode (properties this)) (js "ROUTED")));
         (js "recordingMode",
            JString (unset_or (recordingMode (properties this)) (js "MANUAL")));
         (js "defaultRecordingLayout",
            JString (unset_or (defaultRecordingLayout (properties this)) (js "BEST_FIT")));
         (js "defaultCustomLayout",
            JString (unset_or (defaultCustomLayout (properties this)) [])) ]) /\
  (accepted omitted = true ->
   written <$> requests (run (initial omitted) [Call_getSessionId]) = [defaults] /\
   written <$> requests (run (initial empty) [Call_getSessionId]) = [defaults]) /\
  (forall w : World,
     accepted (session w) = true ->
     written <$> requests (step w Call_getSessionId) =
     (written <$> requests w) ++ [getSessionId_requestBody (session w)]).
Proof.
  cbv zeta. split; [|split].
  - split; [reflexivity|]. split; [reflexivity|].
    intros this. unfold getSessionId_requestBody.
    destruct (properties this) as [[[|??]|] [[|??]|] [[|??]|] [[|??]|]]; reflexivity.
  - intros _. split; reflexivity.
  - intros w _. cbn [step]. by rewrite getSessionId_requests, fmap_app.
Qed.

(** The handle for localhost:4443 is accepted; its first call writes the
    defaults. *)
Lemma getSessionId_default_body_witness :
  let defaults :=
    JSON_stringify
      [ (js "mediaMode", JString (js "ROUTED"));
        (js "recordingMode", JString (js "MANUAL"));
        (js "defaultRecordingLayout", JString (js "BEST_FIT"));
        (js "defaultCustomLayout", JString []) ] in
  written <$> requests (run (initial (new_Session (js "localhost") 4443
                                        (js "Basic T1BFTlZJRFVBUFA6TVlfU0VDUkVU") None))
                            [Call_getSessionId]) = [defaults] /\
  written <$> requests (run (initial (new_Session (js "localhost") 4443
                                        (js "Basic T1BFTlZJRFVBUFA6TVlfU0VDUkVU")
                                        (Some empty_properties)))
                            [Call_getSessionId]) = [defaults].
Proof.
  apply (proj1 (proj2 (getSessionId_default_body (js "localhost") 4443
                         (js "Basic T1BFTlZJRFVBUFA6TVlfU0VDUkVU")))).
  vm_compute. reflexivity.
Defined.

(** C6.  [generateToken] with the empty options object serializes the
    session identifier the handle holds at that moment, the role PUBLISHER
    and the empty data; in general an unset role becomes PUBLISHER and unset
    data the empty string.  That holds for every handle.  On a handle whose
    requests [https.request] accepts, the call writes that body to the
    request it makes. *)
Theorem generateToken_default_body `{JSON : JSONFacility} (w : World) :
  let unset_or (x : option jsstring) (d : jsstring) :=
    match x with
    | None | Some [] => d
    | Some s => s
    end in
  (generateToken_requestBody (session w) empty_options =
   JSON_stringify [ (js "session", sessionId (session w));
                    (js "role", JString (js "PUBLISHER"));
                    (js "data", JString []) ] /\
   forall tokenOptions : TokenOptions,
     generateToken_requestBody (session w) tokenOptions =
     JSON_stringify [ (js "session", sessionId (session w));
                      (js "role", JString (unset_or (role tokenOptions) (js "PUBLISHER")));
                      (js "data", JString (unset_or (data tokenOptions) [])) ]) /\
  (accepted (session w) = true ->
   forall tokenOptions : TokenOptions,
     written <$> requests (step w (Call_generateToken (Some tokenOptions))) =
     (written <$> requests w) ++ [generateToken_requestBody (session w) tokenOptions]).
Proof.
  cbv zeta. split.
  - split; [reflexivity|].
    intros o. unfold generateToken_requestBody.
    destruct o as [[[|??]|] [[|??]|]]; reflexivity.
  - intros _ o. cbn [step]. by rewrite generateToken_requests, fmap_app.
Qed.

(** A token asked with the empty options of the accepted handle that holds
    abc. *)
Lemma generateToken_default_body_witness :
  written <$> requests (step (initial cached) (Call_generateToken (Some empty_options))) =
  (written <$> requests (initial cached)) ++
  [generateToken_requestBody (session (initial cached)) empty_options].
Proof.
  apply (proj2 (generateToken_default_body (initial cached))).
  vm_compute. reflexivity.
Defined.

(** C7.  Every request that [getSessionId] or [generateToken] hands to the
    network, in any run from any handle, carries as [Content-Length] the
    byte length of the body written to it.  That is never less than the
    number of characters of the body, and more as soon as the body has a
    character outside ASCII. *)
Theorem Content_Length_is_byte_length `{JSON : JSONFacility}
    (this : Session) (actions : list Action) (r : ClientRequest) :
  r ∈ requests (run (initial this) actions) ->
  Content_Length (headers (options r)) = byteLength (written r) /\
  char_length (written r) <= Content_Length (headers (options r)) /\
  (Exists (fun c => 0x80 <= c) (written r) ->
   char_length (written r) < Content_Length (headers (options r))).
Proof.
  intros Hr.
  assert (He : exact_length r).
  { pose proof (exact_length_run actions (initial this) (Forall_nil_2 _)) as Hall.
    rewrite Forall_forall in Hall. by apply Hall, list_elem_of_In. }
  unfold exact_length in He. rewrite He.
  split; [reflexivity|]. split; [apply byteLength_ge | apply byteLength_gt].
Qed.

(** The request of the handle with the accented layout: the theorem applies
    to it. *)
Lemma Content_Length_is_byte_length_witness :
  let r := getSessionId_request accented 0 in
  Content_Length (headers (options r)) = byteLength (written r) /\
  char_length (written r) <= Content_Length (headers (options r)) /\
  (Exists (fun c => 0x80 <= c) (written r) ->
   char_length (written r) < Content_Length (headers (options r))).
Proof.
  apply (Content_Length_is_byte_length accented [Call_getSessionId]).
  vm_compute. constructor.
Defined.

(** C8.  [generateToken] does not look at [sessionId] before it posts: on
    every handle whose requests [https.request] accepts, also one that has
    no identifier, the call hands over a request whose body is serialized
    from the identifier as it is, and leaves its promise pending; an answer
    with a status other than 200 then rejects the promise with that
    status. *)
Theorem generateToken_defers_validation `{JSON : JSONFacility}
    (w : World) (tokenOptions : TokenOptions) (res : IncomingMessage) :
  accepted (session w) = true ->
  statusCode res <> 200%Z ->
  let '(w', p) := generateToken (Some tokenOptions) w in
  requests w' = requests w ++ [generateToken_request (session w) tokenOptions p] /\
  written (generateToken_request (session w) tokenOptions p) =
    JSON_stringify [ (js "session", sessionId (session w));
                     (js "role", or_default (role tokenOptions) OpenViduRole_PUBLISHER);
                     (js "data", or_default (data tokenOptions) []) ] /\
  promises w' !! p = Some Pending /\
  promises (complete (length (requests w)) (Response res) w') !! p =
    Some (Rejected (Error_ (statusCode res))).
Proof.
  intros _ Hs. simpl.
  split; [reflexivity|]. split; [reflexivity|].
  split; [apply lookup_fresh|].
  rewrite (complete_not_200 _ (length (promises w)) res _
             (generateToken_request (session w) tokenOptions (length (promises w)))).
  - unfold reject. apply settle_pending. apply lookup_fresh.
  - simpl. apply lookup_fresh.
  - reflexivity.
  - by right.
  - exact Hs.
Qed.

(** A token asked of the fresh handle, whose [sessionId] is [undefined], and
    answered with 400. *)
Lemma generateToken_defers_validation_witness :
  let '(w', p) := generateToken (Some empty_options) (initial fresh) in
  requests w' = requests (initial fresh) ++ [generateToken_request fresh empty_options p] /\
  written (generateToken_request fresh empty_options p) =
    JSON_stringify [ (js "session", JUndefined);
                     (js "role", or_default None OpenViduRole_PUBLISHER);
                     (js "data", or_default None []) ] /\
  promises w' !! p = Some Pending /\
  promises (complete 0 (Response bad_request) w') !! p = Some (Rejected (Error_ 400)).
Proof.
  apply (generateToken_defers_validation (initial fresh) empty_options bad_request).
  - vm_compute. reflexivity.
  - simpl. lia.
Defined.

(** C9.  Two calls of [getSessionId] made before the handle holds an
    identifier, answered with the identifiers [idA] and [idB], the answer
    with [idB] handled last, whichever of the two requests it answers: the
    handle ends up holding [idB], and each caller is answered the identifier
    of its own response. *)
Theorem concurrent_getSessionId_last_completed_wins `{JSON : JSONFacility}
    (this : Session) (resA resB : IncomingMessage)
    (parsedA parsedB idA idB : JSValue) (B_sent_first : bool) :
  ToBoolean (sessionId this) = false ->
  statusCode resA = 200%Z ->
  JSON_parse (received_body resA) = Some parsedA ->
  get_id parsedA = Some idA ->
  statusCode resB = 200%Z ->
  JSON_parse (received_body resB) = Some parsedB ->
  get_id parsedB = Some idB ->
  let a := if B_sent_first then 1%nat else 0%nat in
  let b := if B_sent_first then 0%nat else 1%nat in
  let w := run (initial this)
             [Call_getSessionId; Call_getSessionId;
              Complete a (Response resA); Complete b (Response resB)] in
  sessionId (session w) = idB /\
  promises w !! a = Some (Fulfilled idA) /\
  promises w !! b = Some (Fulfilled idB).
Proof.
  intros Hf HsA HpA HiA HsB HpB HiB a b w. subst a b w.
  unfold run. cbn [foldl step].
  rewrite (getSessionId_unset (initial this)) by exact Hf.
  rewrite getSessionId_unset by exact Hf.
  destruct B_sent_first; simpl.
  - match goal with
    | |- context [complete 1 (Response resA) ?w0] =>
        rewrite (complete_getSessionId_200 1 1 resA w0 _ parsedA idA
                   eq_refl eq_refl eq_refl HsA HpA HiA)
    end.
    unfold resolve, settle; simpl.
    match goal with
    | |- context [complete 0 (Response resB) ?w1] =>
        rewrite (complete_getSessionId_200 0 0 resB w1 _ parsedB idB
                   eq_refl eq_refl eq_refl HsB HpB HiB)
    end.
    unfold resolve, settle; simpl. done.
  - match goal with
    | |- context [complete 0 (Response resA) ?w0] =>
        rewrite (complete_getSessionId_200 0 0 resA w0 _ parsedA idA
                   eq_refl eq_refl eq_refl HsA HpA HiA)
    end.
    unfold resolve, settle; simpl.
    match goal with
    | |- context [complete 1 (Response resB) ?w1] =>
        rewrite (complete_getSessionId_200 1 1 resB w1 _ parsedB idB
                   eq_refl eq_refl eq_refl HsB HpB HiB)
    end.
    unfold resolve, settle; simpl. done.
Qed.

(** The first request is answered B, the second A, and the answer B comes
    last. *)
Lemma concurrent_getSessionId_last_completed_wins_witness :
  let w := run (initial fresh)
             [Call_getSessionId; Call_getSessionId;
              Complete 1 (ok (text "{'id':'A'}")); Complete 0 (ok (text "{'id':'B'}"))] in
  sessionId (session w) = JString (js "B") /\
  promises w !! 1%nat = Some (Fulfilled (JString (js "A"))) /\
  promises w !! 0%nat = Some (Fulfilled (JString (js "B"))).
Proof.
  apply (concurrent_getSessionId_last_completed_wins fresh
           {| statusCode := 200; chunks := [text "{'id':'A'}"] |}
           {| statusCode := 200; chunks := [text "{'id':'B'}"] |}
           (JObject [(js "id", JString (js "A"))])
           (JObject [(js "id", JString (js "B"))])
           (JString (js "A")) (JString (js "B")) true);
    vm_compute; reflexivity.
Defined.

(** C10.  A turn of the event loop that rejects a promise, with a status,
    with a transport error or with the exception of a missing argument,
    leaves the session as it was.  The session is written only by the
    callback of [getSessionId] on a 200 response, and neither the call of
    [generateToken] nor any of its callbacks writes it. *)
Theorem failed_call_leaves_session `{JSON : JSONFacility} (w : World) (a : Action) :
  (forall p reason,
     promises (step w a) !! p = Some (Rejected reason) ->
     promises w !! p <> Some (Rejected reason) ->
     session (step w a) = session w) /\
  (session (step w a) <> session w ->
   exists r res req p,
     a = Complete r (Response res) /\ statusCode res = 200%Z /\
     requests w !! r = Some req /\ callbacks req = getSessionId_callbacks p) /\
  (forall tokenOptions, session (step w (Call_generateToken tokenOptions)) = session w) /\
  (forall p c, session (run_callbacks (generateToken_callbacks p) c w) = session w).
Proof.
  split; [|split; [|split]].
  - intros p reason Hafter Hbefore.
    destruct a as [|o|r c]; cbn [step] in *.
    + apply getSessionId_session.
    + apply generateToken_session.
    + unfold complete in *.
      destruct (requests w !! r) as [req|]; [|done].
      destruct (completed req); [done|].
      set (w1 := with_requests _ w) in *.
      change (session w) with (session w1).
      assert (H1 : promises w1 !! p <> Some (Rejected reason)) by exact Hbefore.
      clearbody w1.
      destruct (callbacks req) as [q|q], c as [res|e]; simpl in *;
        unfold reject; rewrite ?session_settle, ?generateToken_end_session; try done.
      unfold getSessionId_end, resolve, reject, throw in *.
      destruct (statusCode res =? 200)%Z; [|by rewrite session_settle].
      destruct (JSON_parse _) as [parsed|]; [|done].
      destruct (get_id parsed) as [id|]; [|done].
      apply settle_fulfilled_rejected in Hafter. done.
  - destruct a as [|o|r c]; cbn [step].
    + by rewrite getSessionId_session.
    + by rewrite generateToken_session.
    + intros Hne. apply complete_session in Hne.
      destruct Hne as (req & res & p & Hr & _ & Hcb & -> & Hs).
      by exists r, res, req, p.
  - intros o. cbn [step]. apply generateToken_session.
  - intros p [res|e]; simpl.
    + apply generateToken_end_session.
    + unfold reject. by rewrite session_settle.
Qed.

(** The first call on the fresh handle, answered with 400: its promise is
    rejected and the session is as before. *)
Lemma failed_call_leaves_session_witness :
  let w := run (initial fresh) [Call_getSessionId] in
  session (step w (Complete 0 (Response bad_request))) = session w.
Proof.
  apply (proj1 (failed_call_leaves_session
                  (run (initial fresh) [Call_getSessionId])
                  (Complete 0 (Response bad_request)))
               0%nat (Error_ 400)).
  - vm_compute. reflexivity.
  - vm_compute. discriminate.
Defined.

(** ** The texts on the wire, under the reference facility *)

Example default_body_text :
  written <$> requests (run (initial fresh) [Call_getSessionId]) =
  [text "{'mediaMode':'ROUTED','recordingMode':'MANUAL','defaultRecordingLayout':'BEST_FIT','defaultCustomLayout':''}"].
Proof. vm_compute. reflexivity. Qed.

(** Without an identifier the body of a token request has no session. *)
Example token_body_without_session :
  written <$> requests (run (initial fresh) [Call_generateToken (Some empty_options)]) =
  [text "{'role':'PUBLISHER','data':''}"].
Proof. vm_compute. reflexivity. Qed.

Example token_body_with_session :
  written <$> requests (run (initial cached) [Call_generateToken (Some empty_options)]) =
  [text "{'session':'abc','role':'PUBLISHER','data':''}"].
Proof. vm_compute. reflexivity. Qed.

(** One accented letter: 109 characters, 110 bytes. *)
Example accented_lengths :
  let r := getSessionId_request accented 0 in
  char_length (written r) = 109 /\ Content_Length (headers (options r)) = 110.
Proof. vm_compute. done. Qed.

(** A 200 response whose body is the JSON text null: reading [id] throws in
    the callback, the promise stays pending and nothing is stored. *)
Example null_body_throws :
  let w := run (initial fresh) [Call_getSessionId; Complete 0 (ok (js "null"))] in
  promises w = [Pending] /\ uncaught w = [TypeError] /\ sessionId (session w) = JUndefined.
Proof. vm_compute. done. Qed.

End Claims.

(** * Further results on runs *)

Section Runs.
Context `{JSON : JSONFacility}.

Lemma run_cons w a actions : run w (a :: actions) = run (step w a) actions.
Proof. reflexivity. Qed.

Lemma run_snoc w actions a : run w (actions ++ [a]) = step (run w actions) a.
Proof. unfold run. by rewrite foldl_app. Qed.

Lemma run_app w l1 l2 : run w (l1 ++ l2) = run (run w l1) l2.
Proof. unfold run. by rewrite foldl_app. Qed.

Lemma promises_run_callbacks_other cb c w q :
  q <> callbacks_promise cb ->
  promises (run_callbacks cb c w) !! q = promises w !! q.
Proof.
  intros Hq.
  destruct cb as [p|p], c as [res|e]; simpl in *;
    unfold getSessionId_end, generateToken_end, resolve, reject, throw;
    repeat match goal with
    | |- context [if ?b then _ else _] => destruct b
    | |- context [match ?o with Some _ => _ | None => _ end] => destruct o
    end; simpl; try reflexivity; by rewrite settle_other.
Qed.

Lemma length_settle p st w : length (promises (settle p st w)) = length (promises w).
Proof.
  unfold settle. destruct (promises w !! p) as [[| |]|]; try reflexivity.
  simpl. apply length_insert.
Qed.

Lemma length_promises_run_callbacks cb c w :
  length (promises (run_callbacks cb c w)) = length (promises w).
Proof.
  destruct cb as [p|p], c as [res|e]; simpl;
    unfold getSessionId_end, generateToken_end, resolve, reject, throw;
    repeat match goal with
    | |- context [if ?b then _ else _] => destruct b
    | |- context [match ?o with Some _ => _ | None => _ end] => destruct o
    end; simpl; rewrite ?length_settle; reflexivity.
Qed.

Lemma requests_complete r c w :
  requests (complete r c w) = requests w \/
  exists req, requests w !! r = Some req /\ completed req = false /\
              requests (complete r c w) = <[r := mark_completed req]> (requests w).
Proof.
  unfold complete. destruct (requests w !! r) as [req|] eqn:Hr; [|by left].
  destruct (completed req) eqn:Hc; [by left|].
  right. exists req. by rewrite requests_run_callbacks.
Qed.

Lemma length_requests_complete r c w :
  length (requests (complete r c w)) = length (requests w).
Proof.
  destruct (requests_complete r c w) as [-> | (req & _ & _ & ->)]; [done|].
  apply length_insert.
Qed.

Lemma length_promises_complete r c w :
  length (promises (complete r c w)) = length (promises w).
Proof.
  unfold complete. destruct (requests w !! r) as [req|]; [|done].
  destruct (completed req); [done|].
  by rewrite length_promises_run_callbacks.
Qed.

(** A turn keeps what a settled promise holds. *)
Lemma step_keeps w a q st :
  promises w !! q = Some st -> st <> Pending ->
  promises (step w a) !! q = Some st.
Proof.
  intros Hq Hst. destruct a as [|o|r c]; cbn [step].
  - rewrite getSessionId_promises. by apply lookup_app_l_Some.
  - rewrite generateToken_promises. by apply lookup_app_l_Some.
  - rewrite complete_keeps; [done | congruence].
Qed.

(** A call leaves the promises that exist as they are. *)
Lemma step_calling_promises w a q :
  calling a = true -> (q < length (promises w))%nat ->
  promises (step w a) !! q = promises w !! q.
Proof.
  intros Ha Hq. destruct a as [|o|r c]; cbn [step]; [| |done].
  - rewrite getSessionId_promises. by apply lookup_app_l.
  - rewrite generateToken_promises. by apply lookup_app_l.
Qed.

(** What a turn does to the session. *)
Lemma session_step w a :
  session (step w a) = session w \/
  exists r res parsed id,
    a = Complete r (Response res) /\ statusCode res = 200%Z /\
    JSON_parse (received_body res) = Some parsed /\ get_id parsed = Some id /\
    session (step w a) = set_sessionId id (session w).
Proof.
  destruct a as [|o|r c]; cbn [step].
  - left. apply getSessionId_session.
  - left. apply generateToken_session.
  - unfold complete. destruct (requests w !! r) as [req|]; [|by left].
    destruct (completed req); [by left|].
    destruct (callbacks req) as [p|p], c as [res|e]; simpl.
    + unfold getSessionId_end, resolve, reject, throw.
      destruct (Z.eqb_spec (statusCode res) 200) as [Hs|Hs];
        [|left; by rewrite session_settle].
      destruct (JSON_parse _) as [parsed|] eqn:Hparse; [|by left].
      destruct (get_id parsed) as [id|] eqn:Hid; [|by left].
      right. exists r, res, parsed, id. by rewrite session_settle.
    + left. unfold reject. by rewrite session_settle.
    + left. by rewrite generateToken_end_session.
    + left. unfold reject. by rewrite session_settle.
Qed.

Lemma same_handle_step this w a :
  same_handle this (session w) -> same_handle this (session (step w a)).
Proof.
  intros Hw.
  destruct (session_step w a) as [-> | (r & res & parsed & id & _ & _ & _ & _ & ->)];
    [done|].
  destruct Hw as (? & ? & ? & ?). by repeat split.
Qed.

Lemma same_handle_run this actions w :
  same_handle this (session w) -> same_handle this (session (run w actions)).
Proof.
  revert w. induction actions as [|a actions IH]; intros w Hw; [done|].
  apply IH. by apply same_handle_step.
Qed.

Lemma run_keeps actions w q st :
  promises w !! q = Some st -> st <> Pending ->
  promises (run w actions) !! q = Some st.
Proof.
  revert w. induction actions as [|a actions IH]; intros w Hq Hst; [done|].
  rewrite run_cons. apply IH; [|done]. by apply step_keeps.
Qed.

Lemma uncaught_settle p st w : uncaught (settle p st w) = uncaught w.
Proof. unfold settle. destruct (promises w !! p) as [[| |]|]; reflexivity. Qed.

(** ** The log of requests along a run *)

Lemma addressed_as_step this w a :
  same_handle this (session w) ->
  Forall (addressed_as this) (requests w) ->
  Forall (addressed_as this) (requests (step w a)).
Proof.
  intros (Hh & Hp & Ha & _) Hw. destruct a as [|[o|]|r c]; cbn [step].
  - rewrite getSessionId_requests. apply Forall_app. split; [done|].
    apply Forall_singleton. by repeat split.
  - rewrite generateToken_requests. apply Forall_app. split; [done|].
    apply Forall_singleton. by repeat split.
  - unfold generateToken, reject. simpl. by rewrite requests_settle.
  - destruct (requests_complete r c w) as [-> | (req & Hr & _ & ->)]; [done|].
    apply Forall_insert; [done|].
    exact (Forall_lookup_1 _ _ _ _ Hw Hr).
Qed.

Lemma addressed_as_run this actions w :
  same_handle this (session w) ->
  Forall (addressed_as this) (requests w) ->
  Forall (addressed_as this) (requests (run w actions)).
Proof.
  revert w. induction actions as [|a actions IH]; intros w Hs Hw; [done|].
  rewrite run_cons. apply IH; [by apply same_handle_step | by apply addressed_as_step].
Qed.

Lemma length_requests_step w a :
  length (requests (step w a)) =
  (length (requests w) + if requesting a then 1 else 0)%nat.
Proof.
  destruct a as [|[o|]|r c]; cbn [step requesting].
  - rewrite getSessionId_requests, length_app. reflexivity.
  - rewrite generateToken_requests, length_app. reflexivity.
  - unfold generateToken, reject. simpl. rewrite requests_settle. simpl. lia.
  - rewrite length_requests_complete. lia.
Qed.

Lemma length_promises_step w a :
  length (promises (step w a)) =
  (length (promises w) + if calling a then 1 else 0)%nat.
Proof.
  destruct a as [|o|r c]; cbn [step calling].
  - rewrite getSessionId_promises, length_app. reflexivity.
  - rewrite generateToken_promises, length_app. reflexivity.
  - rewrite length_promises_complete. lia.
Qed.

(** ** One promise for each request *)

Lemma one_promise_each_initial this : one_promise_each (initial this).
Proof. split; constructor. Qed.

Lemma one_promise_each_push w r x :
  one_promise_each w ->
  callbacks_promise (callbacks r) = length (promises w) ->
  Forall (fun r => (callbacks_promise (callbacks r) < length (promises w ++ [x]))%nat)
         (requests w ++ [r]) /\
  NoDup ((fun r => callbacks_promise (callbacks r)) <$> (requests w ++ [r])).
Proof.
  intros [Hrange Hdistinct] Hr. split.
  - apply Forall_app. split.
    + eapply Forall_impl; [|exact Hrange]. intros r' Hr'. simpl in Hr'.
      rewrite length_app. simpl. lia.
    + apply Forall_singleton. rewrite length_app. simpl. lia.
  - rewrite fmap_app. apply list.NoDup_app. split; [done|]. split.
    + intros p Hp Hp'. apply list_elem_of_fmap in Hp as (r' & -> & Hin).
      simpl in Hp'. apply list_elem_of_singleton in Hp'.
      rewrite Forall_forall in Hrange.
      apply list_elem_of_In in Hin. apply Hrange in Hin. lia.
    + simpl. apply NoDup_singleton.
Qed.

Lemma one_promise_each_step w a : one_promise_each w -> one_promise_each (step w a).
Proof.
  intros Hw. unfold one_promise_each. destruct a as [|[o|]|r c]; cbn [step].
  - rewrite getSessionId_requests, getSessionId_promises.
    by apply one_promise_each_push.
  - rewrite generateToken_requests, generateToken_promises.
    by apply one_promise_each_push.
  - rewrite generateToken_promises.
    unfold generateToken, reject. simpl. rewrite requests_settle. simpl.
    destruct Hw as [Hrange Hdistinct]. split; [|done].
    eapply Forall_impl; [|exact Hrange]. intros r' Hr'. simpl in Hr'.
    rewrite length_app. simpl. lia.
  - rewrite length_promises_complete.
    destruct Hw as [Hrange Hdistinct].
    destruct (requests_complete r c w) as [-> | (req & Hr & _ & ->)]; [done|].
    split.
    + apply Forall_insert; [done|].
      exact (Forall_lookup_1 _ _ _ _ Hrange Hr).
    + rewrite list_fmap_insert. simpl.
      rewrite list_insert_id; [done|]. by rewrite list_lookup_fmap, Hr.
Qed.

Lemma one_promise_each_run actions w :
  one_promise_each w -> one_promise_each (run w actions).
Proof.
  revert w. induction actions as [|a actions IH]; intros w Hw; [done|].
  rewrite run_cons. by apply IH, one_promise_each_step.
Qed.

(** The promise of a completed request that is still pending is out of reach
    of every later turn. *)
Lemma stuck_step w a r req :
  one_promise_each w ->
  requests w !! r = Some req -> completed req = true ->
  promises w !! callbacks_promise (callbacks req) = Some Pending ->
  requests (step w a) !! r = Some req /\
  promises (step w a) !! callbacks_promise (callbacks req) = Some Pending.
Proof.
  intros [Hrange Hdistinct] Hr Hc Hp.
  pose proof (lookup_lt_Some _ _ _ Hp) as Hlt.
  destruct a as [|[o|]|r' c].
  - split.
    + cbn [step]. rewrite getSessionId_requests. by apply lookup_app_l_Some.
    + by rewrite step_calling_promises.
  - split.
    + cbn [step]. rewrite generateToken_requests. by apply lookup_app_l_Some.
    + by rewrite step_calling_promises.
  - split.
    + cbn [step]. unfold generateToken, reject. simpl. by rewrite requests_settle.
    + by rewrite step_calling_promises.
  - cbn [step]. unfold complete.
    destruct (requests w !! r') as [req'|] eqn:Hr'; [|done].
    destruct (completed req') eqn:Hc'; [done|].
    assert (Hne : r' <> r) by (intros ->; congruence).
    assert (Hpne : callbacks_promise (callbacks req) <> callbacks_promise (callbacks req')).
    { intros Heq. apply Hne.
      eapply (NoDup_lookup _ r' r _ Hdistinct).
      - rewrite list_lookup_fmap, Hr'. simpl. by rewrite <- Heq.
      - by rewrite list_lookup_fmap, Hr. }
    rewrite requests_run_callbacks, promises_run_callbacks_other by done.
    simpl. split; [|done]. by rewrite list_lookup_insert_ne.
Qed.

Lemma stuck_run actions w r req :
  one_promise_each w ->
  requests w !! r = Some req -> completed req = true ->
  promises w !! callbacks_promise (callbacks req) = Some Pending ->
  promises (run w actions) !! callbacks_promise (callbacks req) = Some Pending.
Proof.
  revert w. induction actions as [|a actions IH]; intros w Hw Hr Hc Hp; [done|].
  rewrite run_cons.
  destruct (stuck_step w a r req Hw Hr Hc Hp) as [Hr' Hp'].
  apply IH; [by apply one_promise_each_step | done..].
Qed.

Lemma complete_throws r res w req :
  requests w !! r = Some req -> completed req = false ->
  throws res = true ->
  exists e,
    complete r (Response res) w =
    throw e (with_requests (<[r := mark_completed req]> (requests w)) w).
Proof.
  intros Hr Hc Ht. rewrite (complete_in_flight _ _ _ _ Hr Hc).
  unfold throws in Ht. apply andb_true_iff in Ht as [Hs Ht].
  destruct (callbacks req) as [p|p]; simpl;
    unfold getSessionId_end, generateToken_end; rewrite Hs;
    destruct (JSON_parse _) as [parsed|]; try (by eexists);
    destruct (get_id parsed); try done; by eexists.
Qed.

End Runs.

Section Completions.
Context `{JSON : JSONFacility}.

Lemma complete_failure r e w req :
  requests w !! r = Some req -> completed req = false ->
  complete r (Failure e) w =
  reject (callbacks_promise (callbacks req)) (RequestError e)
    (with_requests (<[r := mark_completed req]> (requests w)) w).
Proof.
  intros Hr Hc. rewrite (complete_in_flight _ _ _ _ Hr Hc).
  by destruct (callbacks req).
Qed.

Lemma generateToken_world o w :
  fst (generateToken (Some o) w) =
  {| session := session w;
     promises := promises w ++ [Pending];
     requests := requests w ++ [generateToken_request (session w) o (length (promises w))];
     uncaught := uncaught w |}.
Proof. reflexivity. Qed.

(** The [id] of a 200 answer to the request of a call of [getSessionId] is
    stored, whatever the handle held. *)
Lemma getSessionId_answer_stored w res parsed id :
  statusCode res = 200%Z ->
  JSON_parse (received_body res) = Some parsed ->
  get_id parsed = Some id ->
  session (complete (length (requests w)) (Response res) (fst (getSessionId w))) =
  set_sessionId id (session w).
Proof.
  intros Hs Hparse Hid.
  rewrite (complete_getSessionId_200 _ (length (promises w)) res _
             (getSessionId_request (session w) (length (promises w))) parsed id);
    try done.
  - unfold resolve. rewrite session_settle. cbn [session with_session with_requests].
    by rewrite getSessionId_session.
  - rewrite getSessionId_requests. apply lookup_fresh.
Qed.

End Completions.

(** * Further properties of the two methods *)

Section Extras.
#[local] Existing Instance Reference.json.

(** X1.  A call of [getSessionId] on a handle without an identifier, whose
    requests [https.request] accepts, is pending until the network answers.  An answer with a status other than
    200 rejects it with that status, for good, and leaves the session and
    the list of uncaught exceptions as they were: the handle is still without
    an identifier. *)
Theorem getSessionId_unset_status_reaches_caller `{JSON : JSONFacility}
    (w : World) (res : IncomingMessage) (after : list Action) :
  accepted (session w) = true ->
  ToBoolean (sessionId (session w)) = false ->
  statusCode res <> 200%Z ->
  let w1 := fst (getSessionId w) in
  let p := snd (getSessionId w) in
  let w2 := complete (length (requests w)) (Response res) w1 in
  promises w1 !! p = Some Pending /\
  promises (run w2 after) !! p = Some (Rejected (Error_ (statusCode res))) /\
  session w2 = session w /\
  uncaught w2 = uncaught w.
Proof.
  intros _ Hf Hs w1 p w2. subst w1 p w2.
  split; [|split].
  - rewrite getSessionId_promises, Hf. apply lookup_fresh.
  - apply run_keeps; [|done]. by apply getSessionId_unset_rejected.
  - rewrite (getSessionId_unset _ Hf).
    rewrite (complete_not_200 _ (length (promises w)) res _
               (getSessionId_request (session w) (length (promises w))));
      [| simpl; apply lookup_fresh | done | by left | done].
    unfold reject. by rewrite session_settle, uncaught_settle.
Qed.

Lemma getSessionId_unset_status_reaches_caller_witness :
  let w1 := fst (getSessionId (initial fresh)) in
  let p := snd (getSessionId (initial fresh)) in
  let w2 := complete (length (requests (initial fresh))) (Response bad_request) w1 in
  promises w1 !! p = Some Pending /\
  promises (run w2 [Call_getSessionId; Complete 0 (ok (text "{'id':'abc'}"))]) !! p =
    Some (Rejected (Error_ (statusCode bad_request))) /\
  session w2 = session (initial fresh) /\
  uncaught w2 = uncaught (initial fresh).
Proof.
  apply (getSessionId_unset_status_reaches_caller (initial fresh) bad_request
           [Call_getSessionId; Complete 0 (ok (text "{'id':'abc'}"))]).
  - vm_compute. reflexivity.
  - reflexivity.
  - simpl. lia.
Defined.

(** X2.  On a handle without an identifier, a 200 answer whose body parses
    to a value with a readable [id] stores that [id] in [sessionId], changes
    nothing else of the handle, and fulfils the caller's promise with it, for
    good. *)
Theorem getSessionId_unset_stores_and_answers `{JSON : JSONFacility}
    (w : World) (res : IncomingMessage) (parsed id : JSValue) (after : list Action) :
  ToBoolean (sessionId (session w)) = false ->
  statusCode res = 200%Z ->
  JSON_parse (received_body res) = Some parsed ->
  get_id parsed = Some id ->
  let p := snd (getSessionId w) in
  let w2 := complete (length (requests w)) (Response res) (fst (getSessionId w)) in
  session w2 = set_sessionId id (session w) /\
  promises (run w2 after) !! p = Some (Fulfilled id) /\
  uncaught w2 = uncaught w.
Proof.
  intros Hf Hs Hparse Hid p w2. subst p w2.
  destruct (getSessionId_unset_provisions w res parsed id Hf Hs Hparse Hid) as [_ Hp].
  split; [|split].
  - rewrite (getSessionId_unset _ Hf).
    rewrite (complete_getSessionId_200 _ (length (promises w)) res _
               (getSessionId_request (session w) (length (promises w))) parsed id);
      try done; [|simpl; apply lookup_fresh].
    unfold resolve. by rewrite session_settle.
  - by apply run_keeps.
  - rewrite (getSessionId_unset _ Hf).
    rewrite (complete_getSessionId_200 _ (length (promises w)) res _
               (getSessionId_request (session w) (length (promises w))) parsed id);
      try done; [|simpl; apply lookup_fresh].
    unfold resolve. by rewrite uncaught_settle.
Qed.

Lemma getSessionId_unset_stores_and_answers_witness :
  let res := {| statusCode := 200; chunks := [text "{'id':'abc','createdAt':1538481996019}"] |} in
  let p := snd (getSessionId (initial fresh)) in
  let w2 := complete (length (requests (initial fresh))) (Response res)
              (fst (getSessionId (initial fresh))) in
  session w2 = set_sessionId (JString (js "abc")) (session (initial fresh)) /\
  promises (run w2 [Complete 0 (Response bad_request)]) !! p =
    Some (Fulfilled (JString (js "abc"))) /\
  uncaught w2 = uncaught (initial fresh).
Proof.
  apply (getSessionId_unset_stores_and_answers (initial fresh)
           {| statusCode := 200; chunks := [text "{'id':'abc','createdAt':1538481996019}"] |}
           (JObject [(js "id", JString (js "abc"));
                     (js "createdAt", JNumber (Decimal 1538481996019 0))])
           (JString (js "abc")) [Complete 0 (Response bad_request)]);
    vm_compute; reflexivity.
Defined.

(** X3.  An ['error'] event on the request of [getSessionId], on a handle
    without an identifier, rejects the caller's promise with the error of
    the event, for good; the session is untouched and nothing is parsed or
    thrown. *)
Theorem getSessionId_transport_failure `{JSON : JSONFacility}
    (w : World) (e : jsstring) (after : list Action) :
  ToBoolean (sessionId (session w)) = false ->
  let p := snd (getSessionId w) in
  let w2 := complete (length (requests w)) (Failure e) (fst (getSessionId w)) in
  promises (run w2 after) !! p = Some (Rejected (RequestError e)) /\
  session w2 = session w /\
  uncaught w2 = uncaught w.
Proof.
  intros Hf p w2. subst p w2. rewrite (getSessionId_unset _ Hf).
  rewrite (complete_failure _ e _
             (getSessionId_request (session w) (length (promises w))));
    [| simpl; apply lookup_fresh | done].
  unfold reject. rewrite session_settle, uncaught_settle.
  split; [|done].
  apply run_keeps; [|done]. apply settle_pending. simpl. apply lookup_fresh.
Qed.

Lemma getSessionId_transport_failure_witness :
  let p := snd (getSessionId (initial fresh)) in
  let w2 := complete (length (requests (initial fresh))) (Failure (js "ECONNREFUSED"))
              (fst (getSessionId (initial fresh))) in
  promises (run w2 [Call_getSessionId]) !! p =
    Some (Rejected (RequestError (js "ECONNREFUSED"))) /\
  session w2 = session (initial fresh) /\
  uncaught w2 = uncaught (initial fresh).
Proof.
  apply (getSessionId_transport_failure (initial fresh) (js "ECONNREFUSED")
           [Call_getSessionId]).
  reflexivity.
Defined.

(** X4.  An ['error'] event on the request of [generateToken] rejects the
    caller's promise with the error of the event, for good, whatever the
    handle holds; the session is untouched. *)
Theorem generateToken_transport_failure `{JSON : JSONFacility}
    (w : World) (tokenOptions : TokenOptions) (e : jsstring) (after : list Action) :
  let p := snd (generateToken (Some tokenOptions) w) in
  let w2 := complete (length (requests w)) (Failure e)
              (fst (generateToken (Some tokenOptions) w)) in
  promises (run w2 after) !! p = Some (Rejected (RequestError e)) /\
  session w2 = session w /\
  uncaught w2 = uncaught w.
Proof.
  intros p w2. subst p w2. rewrite generateToken_world.
  rewrite (complete_failure _ e _
             (generateToken_request (session w) tokenOptions (length (promises w))));
    [| simpl; apply lookup_fresh | done].
  unfold reject. rewrite session_settle, uncaught_settle.
  split; [|done].
  apply run_keeps; [|done]. apply settle_pending. simpl. apply lookup_fresh.
Qed.

(** X5.  A 200 answer to the request of [generateToken] whose body parses to
    a value with a readable [id] fulfils the caller's promise with that
    [id], for good, and stores nothing: the session is as before the call. *)
Theorem generateToken_answers_token `{JSON : JSONFacility}
    (w : World) (tokenOptions : TokenOptions) (res : IncomingMessage)
    (parsed id : JSValue) (after : list Action) :
  statusCode res = 200%Z ->
  JSON_parse (received_body res) = Some parsed ->
  get_id parsed = Some id ->
  let p := snd (generateToken (Some tokenOptions) w) in
  let w2 := complete (length (requests w)) (Response res)
              (fst (generateToken (Some tokenOptions) w)) in
  promises (run w2 after) !! p = Some (Fulfilled id) /\
  session w2 = session w /\
  uncaught w2 = uncaught w.
Proof.
  intros Hs Hparse Hid p w2. subst p w2. rewrite generateToken_world.
  rewrite (complete_in_flight _ _ _
             (generateToken_request (session w) tokenOptions (length (promises w))));
    [| simpl; apply lookup_fresh | done].
  simpl. rewrite (generateToken_end_200 _ _ _ _ _ Hs Hparse Hid).
  unfold resolve. rewrite session_settle, uncaught_settle.
  split; [|done].
  apply run_keeps; [|done]. apply settle_pending. simpl. apply lookup_fresh.
Qed.

Lemma generateToken_answers_token_witness :
  let res := {| statusCode := 200; chunks := [text "{'id':'wss://localhost:4443?token=t0'}"] |} in
  let p := snd (generateToken (Some empty_options) (initial cached)) in
  let w2 := complete (length (requests (initial cached))) (Response res)
              (fst (generateToken (Some empty_options) (initial cached))) in
  promises (run w2 [Call_generateToken (Some empty_options)]) !! p =
    Some (Fulfilled (JString (js "wss://localhost:4443?token=t0"))) /\
  session w2 = session (initial cached) /\
  uncaught w2 = uncaught (initial cached).
Proof.
  apply (generateToken_answers_token (initial cached) empty_options
           {| statusCode := 200; chunks := [text "{'id':'wss://localhost:4443?token=t0'}"] |}
           (JObject [(js "id", JString (js "wss://localhost:4443?token=t0"))])
           (JString (js "wss://localhost:4443?token=t0"))
           [Call_generateToken (Some empty_options)]);
    vm_compute; reflexivity.
Defined.

(** X6.  Every request in the log of any run goes to the host and port of
    the handle with its credential in [Authorization], is a POST of JSON,
    and goes to /api/sessions when [getSessionId] made it and to /api/tokens
    when [generateToken] made it. *)
Theorem requests_go_to_the_handle `{JSON : JSONFacility}
    (this : Session) (actions : list Action) (r : ClientRequest) :
  r ∈ requests (run (initial this) actions) ->
  options_hostname (options r) = hostname this /\
  options_port (options r) = port this /\
  Authorization (headers (options r)) = basicAuth this /\
  Content_Type (headers (options r)) = js "application/json" /\
  method (options r) = js "POST" /\
  path (options r) = match callbacks r with
                     | getSessionId_callbacks _ => js "/api/sessions"
                     | generateToken_callbacks _ => js "/api/tokens"
                     end.
Proof.
  intros Hr.
  assert (Hall : Forall (addressed_as this) (requests (run (initial this) actions))).
  { apply addressed_as_run; [by repeat split | constructor]. }
  rewrite Forall_forall in Hall. apply list_elem_of_In, Hall in Hr.
  destruct Hr as (? & ? & ? & ? & ? & Hpath). by repeat split.
Qed.

Lemma requests_go_to_the_handle_witness :
  let r := generateToken_request (set_sessionId (JString (js "abc")) fresh) empty_options 1 in
  options_hostname (options r) = hostname fresh /\
  options_port (options r) = port fresh /\
  Authorization (headers (options r)) = basicAuth fresh /\
  Content_Type (headers (options r)) = js "application/json" /\
  method (options r) = js "POST" /\
  path (options r) = match callbacks r with
                     | getSessionId_callbacks _ => js "/api/sessions"
                     | generateToken_callbacks _ => js "/api/tokens"
                     end.
Proof.
  apply (requests_go_to_the_handle fresh
           [Call_getSessionId; Complete 0 (ok (text "{'id':'abc'}"));
            Call_generateToken (Some empty_options)]).
  vm_compute. do 1 constructor. constructor.
Defined.

(** X7.  No run changes the host, the port, the credential or the properties
    of the handle: [sessionId] is the only field the methods write. *)
Theorem handle_parameters_are_constant `{JSON : JSONFacility}
    (w : World) (actions : list Action) :
  hostname (session (run w actions)) = hostname (session w) /\
  port (session (run w actions)) = port (session w) /\
  basicAuth (session (run w actions)) = basicAuth (session w) /\
  properties (session (run w actions)) = properties (session w).
Proof.
  destruct (same_handle_run (session w) actions w) as (? & ? & ? & ?);
    [by repeat split|]. by repeat split.
Qed.

(** X8.  On a handle whose requests [https.request] accepts, the methods
    neither repeat nor merge requests: along any run the log grows by one
    request for each call of [getSessionId] and each call of [generateToken]
    with an options object, and by nothing else; the table of promises grows
    by one for each call. *)
Theorem one_request_for_each_call `{JSON : JSONFacility}
    (w : World) (actions : list Action) :
  accepted (session w) = true ->
  length (requests (run w actions)) =
    (length (requests w) + length (List.filter requesting actions))%nat /\
  length (promises (run w actions)) =
    (length (promises w) + length (List.filter calling actions))%nat.
Proof.
  intros _. revert w. induction actions as [|a actions IH]; intros w.
  - simpl. split; lia.
  - rewrite run_cons. destruct (IH (step w a)) as [-> ->].
    rewrite length_requests_step, length_promises_step. simpl.
    destruct (requesting a), (calling a); simpl; split; lia.
Qed.

(** Two calls made at once, a call without options, and three completions:
    three requests and four promises. *)
Lemma one_request_for_each_call_witness :
  let actions :=
    [Call_getSessionId; Call_getSessionId; Call_generateToken None;
     Complete 0 (Response bad_request); Complete 1 (ok (text "{'id':'abc'}"));
     Call_generateToken (Some empty_options); Complete 2 (Failure (js "ECONNRESET"))] in
  length (requests (run (initial fresh) actions)) =
    (length (requests (initial fresh)) + length (List.filter requesting actions))%nat /\
  length (promises (run (initial fresh) actions)) =
    (length (promises (initial fresh)) + length (List.filter calling actions))%nat.
Proof.
  apply (one_request_for_each_call (initial fresh)).
  vm_compute. reflexivity.
Defined.

(** X9.  A promise that is fulfilled or rejected holds the same value or
    reason in every later world of the run. *)
Theorem settled_promise_is_final `{JSON : JSONFacility}
    (w : World) (actions : list Action) (p : nat) (st : PromiseState) :
  promises w !! p = Some st ->
  st <> Pending ->
  promises (run w actions) !! p = Some st.
Proof. intros Hp Hst. by apply run_keeps. Qed.

Lemma settled_promise_is_final_witness :
  promises (run (run (initial fresh) [Call_getSessionId; Complete 0 (Response bad_request)])
              [Complete 0 (ok (text "{'id':'abc'}")); Call_getSessionId;
               Complete 1 (ok (text "{'id':'abc'}"))]) !! 0%nat =
  Some (Rejected (Error_ 400)).
Proof.
  apply (settled_promise_is_final
           (run (initial fresh) [Call_getSessionId; Complete 0 (Response bad_request)])
           [Complete 0 (ok (text "{'id':'abc'}")); Call_getSessionId;
            Complete 1 (ok (text "{'id':'abc'}"))] 0 (Rejected (Error_ 400))).
  - vm_compute. reflexivity.
  - discriminate.
Defined.

(** X10.  The completion of a request touches no promise but the one of the
    call that made the request. *)
Theorem completion_settles_its_own_promise_only `{JSON : JSONFacility}
    (w : World) (r : nat) (c : Completion) (req : ClientRequest) (q : nat) :
  requests w !! r = Some req ->
  q <> callbacks_promise (callbacks req) ->
  promises (complete r c w) !! q = promises w !! q.
Proof.
  intros Hr Hq. unfold complete. rewrite Hr.
  destruct (completed req); [done|].
  by rewrite promises_run_callbacks_other.
Qed.

Lemma completion_settles_its_own_promise_only_witness :
  let w := run (initial fresh) [Call_getSessionId; Call_generateToken (Some empty_options)] in
  promises (complete 1 (Response bad_request) w) !! 0%nat = promises w !! 0%nat.
Proof.
  apply (completion_settles_its_own_promise_only
           (run (initial fresh) [Call_getSessionId; Call_generateToken (Some empty_options)])
           1 (Response bad_request)
           (generateToken_request fresh empty_options 1) 0).
  - vm_compute. reflexivity.
  - vm_compute. discriminate.
Defined.

(** X12.  A 200 answer whose body is no JSON text, or is the text of
    [null], throws inside the ['end'] callback: the exception is caught by
    nobody, the session is untouched, and the caller's promise, if it was
    pending, stays pending in every later world of the run. *)
Theorem malformed_answer_never_settles `{JSON : JSONFacility}
    (this : Session) (before after : list Action)
    (r : nat) (req : ClientRequest) (res : IncomingMessage) :
  let w := run (initial this) before in
  requests w !! r = Some req ->
  completed req = false ->
  promises w !! callbacks_promise (callbacks req) = Some Pending ->
  throws res = true ->
  let w' := complete r (Response res) w in
  (exists e, uncaught w' = uncaught w ++ [e]) /\
  session w' = session w /\
  promises (run w' after) !! callbacks_promise (callbacks req) = Some Pending.
Proof.
  intros w Hr Hc Hp Ht w'.
  assert (Hw : one_promise_each w)
    by apply one_promise_each_run, one_promise_each_initial.
  assert (Hw' : one_promise_each w')
    by apply (one_promise_each_step w (Complete r (Response res)) Hw).
  destruct (complete_throws r res w req Hr Hc Ht) as [e He].
  subst w'. rewrite He in *. split; [by exists e|]. split; [done|].
  apply (stuck_run after _ r (mark_completed req)); try done.
  simpl. apply list_lookup_insert_eq. by eapply lookup_lt_Some.
Qed.

Lemma malformed_answer_never_settles_witness :
  let w := run (initial fresh) [Call_getSessionId] in
  let w' := complete 0 (ok (js "<html>Bad gateway</html>")) w in
  (exists e, uncaught w' = uncaught w ++ [e]) /\
  session w' = session w /\
  promises (run w' [Complete 0 (ok (text "{'id':'abc'}")); Call_generateToken None;
                    Call_getSessionId; Complete 1 (ok (text "{'id':'abc'}"))])
    !! callbacks_promise (callbacks (getSessionId_request fresh 0)) = Some Pending.
Proof.
  apply (malformed_answer_never_settles fresh [Call_getSessionId]
           [Complete 0 (ok (text "{'id':'abc'}")); Call_generateToken None;
            Call_getSessionId; Complete 1 (ok (text "{'id':'abc'}"))]
           0 (getSessionId_request fresh 0)
           {| statusCode := 200; chunks := [js "<html>Bad gateway</html>"] |});
    vm_compute; reflexivity.
Defined.

(** X13.  Nothing but such a 200 answer lets an exception escape: a call of
    a method, an answer with another status and an ['error'] event never
    add to the uncaught exceptions. *)
Theorem only_a_malformed_answer_throws `{JSON : JSONFacility} (w : World) (a : Action) :
  uncaught (step w a) <> uncaught w ->
  exists r res, a = Complete r (Response res) /\ throws res = true.
Proof.
  destruct a as [|[o|]|r c]; cbn [step].
  - unfold getSessionId, resolve. simpl.
    destruct (ToBoolean _); simpl; rewrite ?uncaught_settle; done.
  - done.
  - unfold generateToken, reject. simpl. by rewrite uncaught_settle.
  - unfold complete. destruct (requests w !! r) as [req|]; [|done].
    destruct (completed req); [done|].
    destruct c as [res|e].
    + intros Hne. exists r, res. split; [done|]. unfold throws.
      destruct (callbacks req) as [p|p]; simpl in Hne;
        unfold getSessionId_end, generateToken_end, resolve, reject in Hne;
        destruct (statusCode res =? 200)%Z; simpl;
        rewrite ?uncaught_settle in Hne; try done;
        destruct (JSON_parse _) as [parsed|]; try done;
        destruct (get_id parsed); rewrite ?uncaught_settle in Hne; done.
    + destruct (callbacks req); simpl; unfold reject; by rewrite uncaught_settle.
Qed.

Lemma only_a_malformed_answer_throws_witness :
  exists r res, Complete 0 (ok (js "null")) = Complete r (Response res) /\ throws res = true.
Proof.
  apply (only_a_malformed_answer_throws (run (initial fresh) [Call_getSessionId])
           (Complete 0 (ok (js "null")))).
  vm_compute. discriminate.
Defined.

(** X14.  An identifier that is falsy, such as the [undefined] of a body
    without [id] or the empty string, is stored and answered but does not
    serve as a cache: the next call of [getSessionId] stays pending. *)
Theorem falsy_identifier_is_not_cached `{JSON : JSONFacility}
    (w : World) (res : IncomingMessage) (parsed id : JSValue) :
  ToBoolean (sessionId (session w)) = false ->
  statusCode res = 200%Z ->
  JSON_parse (received_body res) = Some parsed ->
  get_id parsed = Some id ->
  ToBoolean id = false ->
  let w1 := complete (length (requests w)) (Response res) (fst (getSessionId w)) in
  let w2 := fst (getSessionId w1) in
  sessionId (session w1) = id /\
  promises w2 !! snd (getSessionId w) = Some (Fulfilled id) /\
  promises w2 !! snd (getSessionId w1) = Some Pending.
Proof.
  intros Hf Hs Hparse Hid Hfalsy w1 w2.
  destruct (getSessionId_unset_provisions w res parsed id Hf Hs Hparse Hid) as [Hsid Hp].
  fold w1 in Hsid, Hp. subst w2. split; [done|].
  rewrite getSessionId_promises, Hsid, Hfalsy. split.
  - by apply lookup_app_l_Some.
  - apply lookup_fresh.
Qed.

Lemma falsy_identifier_is_not_cached_witness :
  let res := {| statusCode := 200; chunks := [text "{'sessionId':'abc'}"] |} in
  let w1 := complete (length (requests (initial fresh))) (Response res)
              (fst (getSessionId (initial fresh))) in
  let w2 := fst (getSessionId w1) in
  sessionId (session w1) = JUndefined /\
  promises w2 !! snd (getSessionId (initial fresh)) = Some (Fulfilled JUndefined) /\
  promises w2 !! snd (getSessionId w1) = Some Pending.
Proof.
  apply (falsy_identifier_is_not_cached (initial fresh)
           {| statusCode := 200; chunks := [text "{'sessionId':'abc'}"] |}
           (JObject [(js "sessionId", JString (js "abc"))]) JUndefined);
    vm_compute; reflexivity.
Defined.

(** X15.  The body of a token request is fixed when [generateToken] is
    called.  Called after the answer to [getSessionId] was handled it
    carries the identifier of that answer; called before, it carries what
    the handle held then, and the answer that comes later does not change
    it. *)
Theorem token_body_is_fixed_at_the_call `{JSON : JSONFacility}
    (w : World) (tokenOptions : TokenOptions) (res : IncomingMessage)
    (parsed id : JSValue) :
  statusCode res = 200%Z ->
  JSON_parse (received_body res) = Some parsed ->
  get_id parsed = Some id ->
  let n := length (requests w) in
  let body (session_id : JSValue) :=
    JSON_stringify [ (js "session", session_id);
                     (js "role", or_default (role tokenOptions) OpenViduRole_PUBLISHER);
                     (js "data", or_default (data tokenOptions) []) ] in
  written <$> (requests (run w [Call_getSessionId; Complete n (Response res);
                                Call_generateToken (Some tokenOptions)]) !! S n) =
    Some (body id) /\
  written <$> (requests (run w [Call_getSessionId; Call_generateToken (Some tokenOptions);
                                Complete n (Response res)]) !! S n) =
    Some (body (sessionId (session w))).
Proof.
  intros Hs Hparse Hid n body. subst n body. unfold run. cbn [foldl step].
  assert (Hlen : length (requests (fst (getSessionId w))) = S (length (requests w))).
  { rewrite getSessionId_requests, length_app. simpl. lia. }
  split.
  - rewrite generateToken_requests.
    rewrite <- Hlen, <- (length_requests_complete (length (requests w)) (Response res)).
    rewrite lookup_fresh. cbn [fmap option_fmap option_map written generateToken_request].
    unfold generateToken_requestBody.
    by rewrite (getSessionId_answer_stored w res parsed id Hs Hparse Hid).
  - destruct (requests_complete (length (requests w)) (Response res)
                (fst (generateToken (Some tokenOptions) (fst (getSessionId w)))))
      as [-> | (req & _ & _ & ->)].
    + rewrite generateToken_requests, <- Hlen, lookup_fresh.
      cbn [fmap option_fmap option_map written generateToken_request].
      unfold generateToken_requestBody. by rewrite getSessionId_session.
    + rewrite list_lookup_insert_ne by lia.
      rewrite generateToken_requests, <- Hlen, lookup_fresh.
      cbn [fmap option_fmap option_map written generateToken_request].
      unfold generateToken_requestBody. by rewrite getSessionId_session.
Qed.

Lemma token_body_is_fixed_at_the_call_witness :
  let res := {| statusCode := 200; chunks := [text "{'id':'abc'}"] |} in
  let n := length (requests (initial fresh)) in
  let body (session_id : JSValue) :=
    JSON_stringify [ (js "session", session_id);
                     (js "role", or_default (role empty_options) OpenViduRole_PUBLISHER);
                     (js "data", or_default (data empty_options) []) ] in
  written <$> (requests (run (initial fresh)
                           [Call_getSessionId; Complete n (Response res);
                            Call_generateToken (Some empty_options)]) !! S n) =
    Some (body (JString (js "abc"))) /\
  written <$> (requests (run (initial fresh)
                           [Call_getSessionId; Call_generateToken (Some empty_options);
                            Complete n (Response res)]) !! S n) =
    Some (body (sessionId (session (initial fresh)))).
Proof.
  apply (token_body_is_fixed_at_the_call (initial fresh) empty_options
           {| statusCode := 200; chunks := [text "{'id':'abc'}"] |}
           (JObject [(js "id", JString (js "abc"))]) (JString (js "abc")));
    vm_compute; reflexivity.
Defined.

(** X16.  On a handle that holds a truthy identifier the caller of
    [getSessionId] is answered that identifier within the call, and no later
    turn, the answer to the request of that call included, changes what the
    caller was answered. *)
Theorem cached_answer_is_final `{JSON : JSONFacility} (w : World) (after : list Action) :
  ToBoolean (sessionId (session w)) = true ->
  promises (run w (Call_getSessionId :: after)) !! snd (getSessionId w) =
  Some (Fulfilled (sessionId (session w))).
Proof.
  intros Ht. rewrite run_cons. apply run_keeps; [|done].
  cbn [step]. rewrite getSessionId_promises, Ht. apply lookup_fresh.
Qed.

Lemma cached_answer_is_final_witness :
  promises (run (initial cached)
              [Call_getSessionId; Complete 0 (ok (text "{'id':'xyz'}"));
               Complete 0 (Failure (js "ECONNRESET"))])
    !! snd (getSessionId (initial cached)) =
  Some (Fulfilled (sessionId (session (initial cached)))).
Proof.
  apply (cached_answer_is_final (initial cached)
           [Complete 0 (ok (text "{'id':'xyz'}")); Complete 0 (Failure (js "ECONNRESET"))]).
  reflexivity.
Defined.

(** X17.  The identifier a handle holds after a run is the one it held
    before, or the [id] of the parsed body of a 200 answer handled in the
    run: the methods never make up an identifier. *)
Theorem identifier_comes_from_an_answer `{JSON : JSONFacility}
    (w : World) (actions : list Action) :
  sessionId (session (run w actions)) = sessionId (session w) \/
  exists r res parsed,
    Complete r (Response res) ∈ actions /\
    statusCode res = 200%Z /\
    JSON_parse (received_body res) = Some parsed /\
    get_id parsed = Some (sessionId (session (run w actions))).
Proof.
  induction actions as [|a actions IH] using rev_ind; [by left|].
  rewrite run_snoc.
  destruct (session_step (run w actions) a)
    as [-> | (r & res & parsed & id & -> & Hs & Hparse & Hid & ->)].
  - destruct IH as [IH | (r & res & parsed & Hin & Hs & Hparse & Hid)]; [by left|].
    right. exists r, res, parsed. repeat split; try done.
    apply elem_of_app. by left.
  - right. exists r, res, parsed. repeat split; try done.
    apply elem_of_app. right. by apply list_elem_of_singleton.
Qed.

(** X18.  Once a 200 answer with a truthy [id] was handled, the next call
    of [getSessionId] is answered that [id] within the call, whatever the
    handle held before and whatever happens afterwards. *)
Theorem next_call_answers_the_stored_identifier `{JSON : JSONFacility}
    (w : World) (res : IncomingMessage) (parsed id : JSValue) (after : list Action) :
  statusCode res = 200%Z ->
  JSON_parse (received_body res) = Some parsed ->
  get_id parsed = Some id ->
  ToBoolean id = true ->
  promises (run w ([Call_getSessionId; Complete (length (requests w)) (Response res);
                    Call_getSessionId] ++ after))
    !! S (length (promises w)) = Some (Fulfilled id).
Proof.
  intros Hs Hparse Hid Ht. rewrite run_app. apply run_keeps; [|done].
  unfold run. cbn [foldl step].
  pose proof (getSessionId_answer_stored w res parsed id Hs Hparse Hid) as Hsession.
  rewrite getSessionId_promises, Hsession. simpl. rewrite Ht.
  assert (Hlen : length (promises (complete (length (requests w)) (Response res)
                                     (fst (getSessionId w)))) = S (length (promises w))).
  { rewrite length_promises_complete, getSessionId_promises, length_app. simpl. lia. }
  rewrite <- Hlen. apply lookup_fresh.
Qed.

Lemma next_call_answers_the_stored_identifier_witness :
  promises (run (initial fresh)
              ([Call_getSessionId;
                Complete (length (requests (initial fresh))) (ok (text "{'id':'abc'}"));
                Call_getSessionId] ++ [Complete 1 (Response bad_request)]))
    !! S (length (promises (initial fresh))) = Some (Fulfilled (JString (js "abc"))).
Proof.
  apply (next_call_answers_the_stored_identifier (initial fresh)
           {| statusCode := 200; chunks := [text "{'id':'abc'}"] |}
           (JObject [(js "id", JString (js "abc"))]) (JString (js "abc"))
           [Complete 1 (Response bad_request)]);
    vm_compute; reflexivity.
Defined.

End Extras.
